(** * Title matching utilities (src/utils/title_matching.py)

    A shallow embedding of the three functions of the module
    [normalize_title_for_matching], [normalize_title_for_comparison] and
    [fuzzy_title_match], together with the fragment of the Python run time
    they call: truthiness of an [Optional[str]], iteration over it,
    [str.join], [str.split()] without arguments and string equality.

    A Python [str] is a sequence of Unicode code points.  The character
    classes [str.isalnum] and [str.isspace] and the conversion [str.lower]
    belong to the interpreter's Unicode database, not to this repository:
    the functions are parameterised over them, and every property states
    the facts about the database it relies on. *)

From Stdlib Require Import String Ascii.
From Stdlib Require Import List NArith Bool Lia.
Import ListNotations.

Local Open Scope N_scope.
Local Open Scope bool_scope.

(** ** The Python run-time fragment *)

Module Py.

(** A code point, U+0000 .. U+10FFFF. *)
Definition codepoint := N.

(** A Python [str]. *)
Definition str := list codepoint.

(** The exceptions the modelled operations can raise. *)
Inductive exn : Set :=
| TypeError.

(** The outcome of evaluating an expression: a value or a raised
    exception. *)
Inductive result (A : Type) : Type :=
| Ok (a : A)
| Raise (e : exn).
Arguments Ok {A} a.
Arguments Raise {A} e.

Definition bind {A B : Type} (m : result A) (k : A -> result B) : result B :=
  match m with
  | Ok a => k a
  | Raise e => Raise e
  end.

(** Truth value of an [Optional[str]]: [None] and [''] are falsy. *)
Definition truthy (v : option str) : bool :=
  match v with
  | None => false
  | Some [] => false
  | Some (_ :: _) => true
  end.

(** [for ch in v]: a [str] yields its characters in order; [None] is not
    iterable. *)
Definition iter (v : option str) : result str :=
  match v with
  | None => Raise TypeError
  | Some s => Ok s
  end.

(** [a == b] on two [str]. *)
Fixpoint str_eqb (a b : str) : bool :=
  match a, b with
  | [], [] => true
  | x :: a', y :: b' => (x =? y) && str_eqb a' b'
  | _, _ => false
  end.

(** [sep.join(parts)]. *)
Fixpoint join (sep : str) (parts : list str) : str :=
  match parts with
  | [] => []
  | [w] => w
  | w :: rest => w ++ sep ++ join sep rest
  end.

(** The ASCII space, U+0020. *)
Definition SPACE : codepoint := 32.

Section Split.

(** The whitespace test of the interpreter ([Py_UNICODE_ISSPACE]), the
    one [str.isspace] and [str.split()] both use. *)
Variable isspace : codepoint -> bool.

(** A scanned word enters the result only when it has a character. *)
Definition flush (w : str) : list str :=
  match w with
  | [] => []
  | _ :: _ => [w]
  end.

(** [scan s] is the word that starts at the head of [s] (empty when [s]
    starts with whitespace or is empty) and the words after it. *)
Fixpoint scan (s : str) : str * list str :=
  match s with
  | [] => ([], [])
  | c :: rest =>
      let (w, ws) := scan rest in
      if isspace c then ([], flush w ++ ws) else (c :: w, ws)
  end.

(** [s.split()]: the maximal runs of non-whitespace characters of [s],
    in order; runs of whitespace separate them and produce no empty
    string, also at the start and at the end. *)
Definition split (s : str) : list str :=
  let (w, ws) := scan s in flush w ++ ws.

End Split.

(** *** String literals

    The source file is UTF-8; [literal] reads a literal written here as
    the same bytes and gives the code points Python sees. *)

Fixpoint utf8 (acc : N) (need : nat) (bytes : list N) : str :=
  match bytes with
  | [] => []
  | b :: rest =>
      match need with
      | O =>
          if b <? 128 then b :: utf8 0 0 rest
          else if b <? 224 then utf8 (b - 192) 1 rest
          else if b <? 240 then utf8 (b - 224) 2 rest
          else utf8 (b - 240) 3 rest
      | S O => (acc * 64 + (b - 128)) :: utf8 0 0 rest
      | S n => utf8 (acc * 64 + (b - 128)) n rest
      end
  end.

Definition literal (s : string) : str :=
  utf8 0 0 (map N_of_ascii (list_ascii_of_string s)).

End Py.

Import Py.

Notation "x <- m ;; k" := (bind m (fun x => k))
  (at level 61, m at next level, right associativity).

(** ** The module [title_matching] *)

Section TitleMatching.

(** [ch.isalnum()] and [ch.isspace()] on a one-character string, and
    [s.lower()]. *)
Variable isalnum : codepoint -> bool.
Variable isspace : codepoint -> bool.
Variable lower : str -> str.

(** The characters the generator expression keeps. *)
Definition kept (ch : codepoint) : bool := isalnum ch || isspace ch.

Definition normalize_title_for_matching (title : option str) : result str :=
  if negb (truthy title) then Ok []
  else
    chars <- iter title ;;
    let normalized := join [] (map (fun ch => [ch]) (filter kept chars)) in
    let normalized := join [SPACE] (split isspace normalized) in
    Ok normalized.

Definition normalize_title_for_comparison (title : option str) : result str :=
  s <- normalize_title_for_matching title ;;
  Ok (lower s).

Definition fuzzy_title_match (title1 title2 : option str) : result bool :=
  a <- normalize_title_for_comparison title1 ;;
  b <- normalize_title_for_comparison title2 ;;
  Ok (str_eqb a b).

End TitleMatching.

(** ** The Unicode database on U+0000 .. U+00FF

    CPython's classification of Basic Latin and the Latin-1 Supplement.
    Code points above U+00FF are outside this table: it leaves them
    unclassified and unchanged. *)

Module Latin1.

Definition between (lo hi c : codepoint) : bool := (lo <=? c) && (c <=? hi).

Definition isspace (c : codepoint) : bool :=
  between 9 13 c || between 28 32 c || (c =? 133) || (c =? 160).

Definition isalnum (c : codepoint) : bool :=
  between 48 57 c || between 65 90 c || between 97 122 c
  || (c =? 170) || between 178 179 c || (c =? 181) || between 185 186 c
  || between 188 190 c || between 192 214 c || between 216 246 c
  || between 248 255 c.

Definition lower_char (c : codepoint) : codepoint :=
  if between 65 90 c || between 192 214 c || between 216 222 c
  then c + 32 else c.

Definition lower (s : str) : str := map lower_char s.

Definition matching := normalize_title_for_matching isalnum isspace.
Definition comparison := normalize_title_for_comparison isalnum isspace lower.
Definition fuzzy := fuzzy_title_match isalnum isspace lower.

End Latin1.

(** ** Shapes of a normalized title *)

Section Shapes.

Variable isalnum : codepoint -> bool.
Variable isspace : codepoint -> bool.

(** A word of a normalized title: at least one character, each of them
    alphanumeric and none of them whitespace. *)
Definition word (w : str) : Prop :=
  w <> [] /\ Forall (fun c => isalnum c = true /\ isspace c = false) w.

(** A chunk of a split string: at least one character, none of them
    whitespace. *)
Definition chunk (w : str) : Prop :=
  w <> [] /\ Forall (fun c => isspace c = false) w.

(** The words of a title: what stands between whitespace once the
    punctuation is gone. *)
Definition words (t : str) : list str :=
  split isspace (filter (kept isalnum isspace) t).

(** Every character is alphanumeric or the ASCII space. *)
Definition only_alnum_and_space (s : str) : Prop :=
  Forall (fun c => isalnum c = true \/ c = SPACE) s.

(** No ASCII space is followed by another one. *)
Definition no_double_space (s : str) : Prop :=
  forall u v, s <> u ++ SPACE :: SPACE :: v.

Definition no_leading_space (s : str) : Prop :=
  forall v, s <> SPACE :: v.

Definition no_trailing_space (s : str) : Prop :=
  forall u, s <> u ++ [SPACE].

(** Every ASCII space stands between two alphanumeric characters. *)
Definition spaces_separate (s : str) : Prop :=
  forall u v, s = u ++ SPACE :: v ->
    exists u' a b v',
      u = u' ++ [a] /\ v = b :: v'
      /\ isalnum a = true /\ a <> SPACE /\ isalnum b = true /\ b <> SPACE.

(** A character the normalization deletes: neither alphanumeric nor
    whitespace. *)
Definition punctuation (c : codepoint) : Prop :=
  isalnum c = false /\ isspace c = false.

End Shapes.

(** Two normalized titles put one after the other: an empty one
    disappears, two non-empty ones are separated by one ASCII space. *)
Definition spaced (a b : str) : str :=
  match a with
  | [] => b
  | _ :: _ =>
      match b with
      | [] => a
      | _ :: _ => a ++ SPACE :: b
      end
  end.

(** Facts of the Unicode database the properties rely on. *)

Definition space_is_whitespace (isspace : codepoint -> bool) : Prop :=
  isspace SPACE = true.

Definition alnum_not_whitespace (isalnum isspace : codepoint -> bool) : Prop :=
  forall c, isalnum c = true -> isspace c = false.

Definition lower_keeps_empty (lower : str -> str) : Prop :=
  lower [] = [].

Definition lower_keeps_nonempty (lower : str -> str) : Prop :=
  forall s, lower s = [] -> s = [].

(** A database that classifies U+0000 .. U+00FF as CPython does. *)
Definition agrees_on_latin1 (isalnum isspace : codepoint -> bool) : Prop :=
  forall c, c < 256 ->
    isalnum c = Latin1.isalnum c /\ isspace c = Latin1.isspace c.

(** A [str.lower] that converts strings of U+0000 .. U+00FF as CPython
    does. *)
Definition lower_agrees_on_latin1 (lower : str -> str) : Prop :=
  forall s, Forall (fun c => c < 256) s -> lower s = Latin1.lower s.

(** Case analysis on a true boolean combination of comparisons. *)
Ltac bool_hyp H :=
  match type of H with
  | (_ || _) = true =>
      apply orb_true_iff in H; destruct H as [H | H]; bool_hyp H
  | (_ && _) = true =>
      let H' := fresh H in
      apply andb_true_iff in H; destruct H as [H H']; bool_hyp H; bool_hyp H'
  | (_ <=? _) = true => apply N.leb_le in H
  | (_ =? _) = true => apply N.eqb_eq in H
  | _ => idtac
  end.

(** ** The documented examples and the unit tests, evaluated *)

Example literal_ascii : literal "Bob's" = [66; 111; 98; 39; 115].
Proof. reflexivity. Qed.

Example literal_two_bytes :
  literal "Ragnarök" = [82; 97; 103; 110; 97; 114; 246; 107].
Proof. reflexivity. Qed.

Example split_example :
  split Latin1.isspace (literal "  The   Matrix ") = [literal "The"; literal "Matrix"].
Proof. reflexivity. Qed.

Example doc_bobs_burgers :
  Latin1.matching (Some (literal "Bob's Burgers")) = Ok (literal "Bobs Burgers").
Proof. reflexivity. Qed.

Example doc_spider_man :
  Latin1.matching (Some (literal "Spider-Man")) = Ok (literal "SpiderMan").
Proof. reflexivity. Qed.

Example doc_shield :
  Latin1.matching (Some (literal "S.H.I.E.L.D.")) = Ok (literal "SHIELD").
Proof. reflexivity. Qed.

Example doc_star_wars :
  Latin1.matching (Some (literal "Star Wars: Episode IV"))
  = Ok (literal "Star Wars Episode IV").
Proof. reflexivity. Qed.

Example doc_comparison_spider_man :
  Latin1.comparison (Some (literal "Spider-Man")) = Ok (literal "spiderman").
Proof. reflexivity. Qed.

Example test_fuzzy_match_case :
  Latin1.fuzzy (Some (literal "tHe MaTrIx")) (Some (literal "THE MATRIX")) = Ok true.
Proof. reflexivity. Qed.

Example test_fuzzy_match_failure :
  Latin1.fuzzy (Some (literal "Bob's Burgers")) (Some (literal "Breaking Bad"))
  = Ok false.
Proof. reflexivity. Qed.

Example test_fuzzy_match_none :
  Latin1.fuzzy None None = Ok true
  /\ Latin1.fuzzy (Some (literal "Something")) None = Ok false
  /\ Latin1.fuzzy None (Some (literal "Something")) = Ok false.
Proof. repeat split; reflexivity. Qed.

(** ** The run-time fragment: equality, join and split *)

Lemma str_eqb_refl (a : str) : str_eqb a a = true.
Proof.
  induction a as [|x a IH]; simpl; [reflexivity|].
  now rewrite N.eqb_refl, IH.
Qed.

Lemma str_eqb_eq (a b : str) : str_eqb a b = true <-> a = b.
Proof.
  split; [|intros ->; apply str_eqb_refl].
  revert b; induction a as [|x a IH]; intros [|y b]; simpl; try discriminate.
  - reflexivity.
  - intros H. apply andb_true_iff in H as [Hx Hab].
    apply N.eqb_eq in Hx. now rewrite Hx, (IH b Hab).
Qed.

Lemma str_eqb_neq (a b : str) : str_eqb a b = false <-> a <> b.
Proof.
  split.
  - intros H E. apply str_eqb_eq in E. congruence.
  - intros H. destruct (str_eqb a b) eqn:E; [|reflexivity].
    apply str_eqb_eq in E. contradiction.
Qed.

Lemma str_eqb_sym (a b : str) : str_eqb a b = str_eqb b a.
Proof.
  destruct (str_eqb a b) eqn:E.
  - apply str_eqb_eq in E. subst. symmetry. apply str_eqb_refl.
  - symmetry. apply str_eqb_neq. apply str_eqb_neq in E. congruence.
Qed.

Lemma join_chars (l : str) : join [] (map (fun ch => [ch]) l) = l.
Proof.
  induction l as [|c l IH]; [reflexivity|].
  simpl map. destruct l as [|d l]; [reflexivity|].
  change (c :: join [] (map (fun ch => [ch]) (d :: l)) = c :: d :: l).
  now rewrite IH.
Qed.

Lemma join_cons (sep w : str) (ws : list str) :
  ws <> [] -> join sep (w :: ws) = w ++ sep ++ join sep ws.
Proof. destruct ws; [congruence | reflexivity]. Qed.

Lemma filter_join (f : codepoint -> bool) (sep : str) (ws : list str) :
  filter f (join sep ws) = join (filter f sep) (map (filter f) ws).
Proof.
  induction ws as [|w ws IH]; [reflexivity|].
  destruct ws as [|w' ws]; [reflexivity|].
  rewrite (join_cons sep w (w' :: ws)) by discriminate. simpl map.
  rewrite (join_cons (filter f sep) (filter f w)) by discriminate.
  now rewrite !filter_app, IH.
Qed.

Lemma join_nil_concat (ws : list str) : join [] ws = concat ws.
Proof.
  induction ws as [|w ws IH]; [reflexivity|].
  destruct ws as [|w' ws]; [simpl; now rewrite app_nil_r|].
  rewrite (join_cons [] w (w' :: ws)) by discriminate.
  change (w ++ join [] (w' :: ws) = w ++ concat (w' :: ws)).
  now rewrite IH.
Qed.

Lemma filter_all (f : codepoint -> bool) (l : str) :
  Forall (fun c => f c = true) l -> filter f l = l.
Proof.
  induction 1 as [|c l Hc _ IH]; simpl; [reflexivity|].
  now rewrite Hc, IH.
Qed.

Lemma filter_none (f : codepoint -> bool) (l : str) :
  Forall (fun c => f c = false) l -> filter f l = [].
Proof.
  induction 1 as [|c l Hc _ IH]; simpl; [reflexivity|].
  now rewrite Hc.
Qed.

Section SplitFacts.

Variable isspace : codepoint -> bool.

Local Abbreviation nonspace := (fun c : codepoint => isspace c = false).
Local Abbreviation chunk := (chunk isspace).

Lemma flush_chunks (w : str) : Forall nonspace w -> Forall chunk (flush w).
Proof.
  destruct w as [|c w]; intros H; simpl; constructor; [|constructor].
  split; [discriminate | exact H].
Qed.

Lemma flush_concat (w : str) : concat (flush w) = w.
Proof. destruct w; simpl; [reflexivity | now rewrite app_nil_r]. Qed.

Lemma flush_nonempty (w : str) : w <> [] -> flush w = [w].
Proof. destruct w; [congruence | reflexivity]. Qed.

Lemma scan_cons (c : codepoint) (s : str) :
  scan isspace (c :: s)
  = if isspace c then ([], split isspace s)
    else (c :: fst (scan isspace s), snd (scan isspace s)).
Proof.
  unfold split. simpl. destruct (scan isspace s) as [w ws].
  destruct (isspace c); reflexivity.
Qed.

Lemma split_cons (c : codepoint) (s : str) :
  split isspace (c :: s)
  = if isspace c then split isspace s
    else flush (c :: fst (scan isspace s)) ++ snd (scan isspace s).
Proof.
  unfold split at 1. rewrite scan_cons.
  destruct (isspace c); reflexivity.
Qed.

Lemma scan_shape (s : str) :
  Forall nonspace (fst (scan isspace s))
  /\ Forall chunk (snd (scan isspace s))
  /\ fst (scan isspace s) ++ concat (snd (scan isspace s))
     = filter (fun c => negb (isspace c)) s.
Proof.
  induction s as [|c s (Hw & Hws & Hcat)].
  - simpl. repeat split; constructor.
  - rewrite scan_cons. unfold split. simpl filter.
    destruct (scan isspace s) as [w ws]. simpl in *.
    destruct (isspace c) eqn:Hc; simpl.
    + repeat split.
      * constructor.
      * apply Forall_app. split; [now apply flush_chunks | exact Hws].
      * now rewrite concat_app, flush_concat.
    + repeat split.
      * constructor; [exact Hc | exact Hw].
      * exact Hws.
      * now rewrite Hcat.
Qed.

Lemma split_chunks (s : str) : Forall chunk (split isspace s).
Proof.
  destruct (scan_shape s) as (Hw & Hws & _). unfold split.
  destruct (scan isspace s) as [w ws]. simpl in *.
  apply Forall_app. split; [now apply flush_chunks | exact Hws].
Qed.

Lemma concat_split (s : str) :
  concat (split isspace s) = filter (fun c => negb (isspace c)) s.
Proof.
  destruct (scan_shape s) as (_ & _ & Hcat). unfold split.
  destruct (scan isspace s) as [w ws]. simpl in *.
  now rewrite concat_app, flush_concat.
Qed.

Lemma scan_word_app (w s : str) :
  Forall nonspace w ->
  scan isspace (w ++ s)
  = (w ++ fst (scan isspace s), snd (scan isspace s)).
Proof.
  induction 1 as [|c w Hc _ IH].
  - simpl. now destruct (scan isspace s).
  - change ((c :: w) ++ s) with (c :: (w ++ s)).
    rewrite scan_cons, Hc, IH. reflexivity.
Qed.

Lemma split_word_app (w s : str) :
  Forall nonspace w ->
  split isspace (w ++ s)
  = flush (w ++ fst (scan isspace s)) ++ snd (scan isspace s).
Proof.
  intros H. unfold split at 1. now rewrite (scan_word_app w s H).
Qed.

Lemma split_spaces_app (sp s : str) :
  Forall (fun c => isspace c = true) sp ->
  split isspace (sp ++ s) = split isspace s.
Proof.
  induction 1 as [|c sp Hc _ IH]; [reflexivity|].
  change ((c :: sp) ++ s) with (c :: (sp ++ s)).
  now rewrite split_cons, Hc.
Qed.

(** A word, then at least one whitespace character: the word is the
    first element of the result. *)
Lemma split_word_spaces_app (w sp s : str) :
  chunk w -> sp <> [] -> Forall (fun c => isspace c = true) sp ->
  split isspace (w ++ sp ++ s) = w :: split isspace s.
Proof.
  intros [Hne Hw] Hsp Hall.
  rewrite (split_word_app w _ Hw).
  destruct sp as [|c sp]; [congruence|].
  apply Forall_cons_iff in Hall as [Hc Hall].
  change ((c :: sp) ++ s) with (c :: (sp ++ s)).
  rewrite scan_cons, Hc. simpl fst. simpl snd.
  rewrite app_nil_r, (flush_nonempty w Hne), (split_spaces_app sp s Hall).
  reflexivity.
Qed.

Lemma split_one_word (w : str) : chunk w -> split isspace w = [w].
Proof.
  intros [Hne Hw].
  rewrite <- (app_nil_r w) at 1. rewrite (split_word_app w [] Hw).
  cbn [scan fst snd]. rewrite !app_nil_r. now apply flush_nonempty.
Qed.

(** Splitting undoes joining words by one whitespace character. *)
Lemma split_join (sp : codepoint) (ws : list str) :
  isspace sp = true -> Forall chunk ws ->
  split isspace (join [sp] ws) = ws.
Proof.
  intros Hsp. induction 1 as [|w ws Hw Hws IH]; [reflexivity|].
  destruct ws as [|w' ws]; [now apply split_one_word|].
  rewrite join_cons by discriminate.
  rewrite (split_word_spaces_app w [sp] _ Hw); try discriminate.
  - now rewrite IH.
  - constructor; [exact Hsp | constructor].
Qed.

End SplitFacts.

(** ** Normalization for matching *)

Section MatchingFacts.

Variable isalnum : codepoint -> bool.
Variable isspace : codepoint -> bool.

Local Abbreviation matching := (normalize_title_for_matching isalnum isspace).
Local Abbreviation keep := (kept isalnum isspace).

Local Abbreviation words := (words isalnum isspace).

Lemma matching_none : matching None = Ok [].
Proof. reflexivity. Qed.

Lemma matching_some (t : str) :
  matching (Some t) = Ok (join [SPACE] (words t)).
Proof.
  destruct t as [|c t]; [reflexivity|].
  unfold normalize_title_for_matching, words.
  cbn [truthy negb iter bind]. now rewrite join_chars.
Qed.

Lemma matching_ok (title : option str) : exists s, matching title = Ok s.
Proof.
  destruct title as [t|]; eexists;
    [apply matching_some | apply matching_none].
Qed.

Lemma words_concat (t : str) :
  concat (words t)
  = filter (fun c => negb (isspace c)) (filter keep t).
Proof. apply concat_split. Qed.

Lemma words_are_words (t : str) : Forall (word isalnum isspace) (words t).
Proof.
  pose proof (split_chunks isspace (filter keep t)) as Hch.
  pose proof (words_concat t) as Hcat. fold (words t) in Hch.
  apply Forall_forall. intros w Hw.
  rewrite Forall_forall in Hch. destruct (Hch w Hw) as [Hne Hns].
  split; [exact Hne|]. apply Forall_forall. intros c Hc.
  assert (Hin : In c (concat (words t)))
    by (apply in_concat; exists w; split; assumption).
  rewrite Hcat in Hin.
  apply filter_In in Hin as [Hin Hsp]. apply filter_In in Hin as [_ Hk].
  apply negb_true_iff in Hsp. unfold kept in Hk. rewrite Hsp in Hk.
  rewrite orb_false_r in Hk. split; assumption.
Qed.

(** The result is the words of the title joined by one ASCII space. *)
Lemma matching_shape (title : option str) :
  exists ws, matching title = Ok (join [SPACE] ws)
             /\ Forall (word isalnum isspace) ws.
Proof.
  destruct title as [t|].
  - exists (words t). split; [apply matching_some | apply words_are_words].
  - exists []. split; [reflexivity | constructor].
Qed.

Lemma word_chunk (w : str) :
  word isalnum isspace w -> w <> [] /\ Forall (fun c => isspace c = false) w.
Proof.
  intros [Hne Hw]. split; [exact Hne|].
  eapply Forall_impl; [|exact Hw]. now intros c [_ H].
Qed.

Lemma word_alnum (w : str) :
  word isalnum isspace w -> Forall (fun c => isalnum c = true) w.
Proof.
  intros [_ Hw]. eapply Forall_impl; [|exact Hw]. now intros c [H _].
Qed.

Lemma joined_only_alnum_and_space (ws : list str) :
  Forall (word isalnum isspace) ws ->
  only_alnum_and_space isalnum (join [SPACE] ws).
Proof.
  unfold only_alnum_and_space.
  induction 1 as [|w ws Hw Hws IH]; [constructor|].
  assert (Hwa : Forall (fun c => isalnum c = true \/ c = SPACE) w).
  { eapply Forall_impl; [|apply (word_alnum w Hw)]. now left. }
  destruct ws as [|w' ws]; [exact Hwa|].
  rewrite join_cons by discriminate.
  apply Forall_app. split; [exact Hwa|].
  apply Forall_app. split; [|exact IH].
  constructor; [now right | constructor].
Qed.

Section WithSpace.

Hypothesis space_ws : space_is_whitespace isspace.

Lemma word_no_space (w : str) :
  word isalnum isspace w -> ~ In SPACE w.
Proof.
  intros [_ Hw] Hin. rewrite Forall_forall in Hw.
  destruct (Hw SPACE Hin) as [_ H]. unfold space_is_whitespace in space_ws.
  congruence.
Qed.

Lemma kept_space : keep SPACE = true.
Proof. unfold kept. rewrite space_ws. apply orb_true_r. Qed.

Lemma joined_kept (ws : list str) :
  Forall (word isalnum isspace) ws ->
  filter keep (join [SPACE] ws) = join [SPACE] ws.
Proof.
  intros Hws. apply filter_all.
  eapply Forall_impl; [|apply (joined_only_alnum_and_space ws Hws)].
  intros c [Hc | ->]; [|apply kept_space].
  unfold kept. now rewrite Hc.
Qed.

Lemma words_joined (ws : list str) :
  Forall (word isalnum isspace) ws ->
  words (join [SPACE] ws) = ws.
Proof.
  intros Hws. unfold words. rewrite (joined_kept ws Hws).
  apply split_join; [exact space_ws|].
  eapply Forall_impl; [|exact Hws]. apply word_chunk.
Qed.

(** Normalizing a normalized title changes nothing. *)
Lemma matching_joined (ws : list str) :
  Forall (word isalnum isspace) ws ->
  matching (Some (join [SPACE] ws)) = Ok (join [SPACE] ws).
Proof.
  intros Hws. now rewrite matching_some, (words_joined ws Hws).
Qed.

End WithSpace.

End MatchingFacts.

(** ** Where the spaces of a normalized title stand *)

Lemma first_occurrence (x : codepoint) (w r u v : str) :
  ~ In x w -> w ++ x :: r = u ++ x :: v ->
  (u = w /\ v = r) \/ (exists u2, u = w ++ x :: u2 /\ r = u2 ++ x :: v).
Proof.
  revert u. induction w as [|a w IH]; intros u Hnot E.
  - destruct u as [|y u]; simpl in E.
    + left. split; [reflexivity | congruence].
    + right. exists u. injection E as -> ->. split; reflexivity.
  - destruct u as [|y u]; simpl in E.
    + injection E as -> _. exfalso. apply Hnot. now left.
    + injection E as -> E.
      destruct (IH u) as [[-> ->] | (u2 & -> & ->)].
      * intros H. apply Hnot. now right.
      * exact E.
      * left. split; reflexivity.
      * right. exists u2. split; reflexivity.
Qed.

Lemma join_head (sep : str) (b : codepoint) (w : str) (ws : list str) :
  exists rest, join sep ((b :: w) :: ws) = b :: rest.
Proof. destruct ws; eexists; reflexivity. Qed.

Section SpacesFacts.

Variable isalnum : codepoint -> bool.
Variable isspace : codepoint -> bool.
Hypothesis space_ws : space_is_whitespace isspace.

Lemma word_char (w : str) (c : codepoint) :
  word isalnum isspace w -> In c w -> isalnum c = true /\ c <> SPACE.
Proof.
  intros Hw Hin. split.
  - pose proof (word_alnum _ _ w Hw) as H. rewrite Forall_forall in H. auto.
  - intros ->. exact (word_no_space _ _ space_ws w Hw Hin).
Qed.

Lemma joined_spaces_separate (ws : list str) :
  Forall (word isalnum isspace) ws ->
  spaces_separate isalnum (join [SPACE] ws).
Proof.
  induction 1 as [|w ws Hw Hws IH]; intros u v E.
  - destruct u; discriminate.
  - destruct ws as [|w' ws].
    + exfalso. apply (word_no_space _ _ space_ws w Hw).
      simpl in E. rewrite E. apply in_elt.
    + rewrite join_cons in E by discriminate. simpl app in E.
      apply first_occurrence in E;
        [|exact (word_no_space _ _ space_ws w Hw)].
      destruct E as [[-> ->] | (u2 & -> & E)].
      * destruct (exists_last (proj1 Hw)) as (u' & a & Hu).
        apply Forall_cons_iff in Hws as [Hw' _].
        destruct w' as [|b w']; [now destruct Hw'|].
        destruct (join_head [SPACE] b w' ws) as [v' Hv].
        assert (Ha : In a w) by (rewrite Hu; apply in_elt).
        destruct (word_char w a Hw Ha) as [Haa Has].
        destruct (word_char (b :: w') b Hw' (or_introl eq_refl)) as [Hba Hbs].
        exists u', a, b, v'. repeat split; assumption.
      * destruct (IH u2 v E) as (u' & a & b & v' & -> & -> & Hrest).
        exists (w ++ SPACE :: u'), a, b, v'.
        split; [now rewrite <- app_assoc | split; [reflexivity | exact Hrest]].
Qed.

Lemma separate_no_double (s : str) :
  spaces_separate isalnum s -> no_double_space s.
Proof.
  intros H u v E. destruct (H u (SPACE :: v) E) as (_ & _ & b & v' & _ & Hv & _ & _ & _ & Hb).
  injection Hv as <- _. now apply Hb.
Qed.

Lemma separate_no_leading (s : str) :
  spaces_separate isalnum s -> no_leading_space s.
Proof.
  intros H v E. destruct (H [] v E) as (u' & a & _ & _ & Hu & _).
  destruct u'; discriminate.
Qed.

Lemma separate_no_trailing (s : str) :
  spaces_separate isalnum s -> no_trailing_space s.
Proof.
  intros H u E. destruct (H u [] E) as (_ & _ & b & v' & _ & Hv & _).
  discriminate.
Qed.

End SpacesFacts.

(** ** What the normalization deletes and what it keeps *)

Section DeletionFacts.

Variable isalnum : codepoint -> bool.
Variable isspace : codepoint -> bool.

Local Abbreviation matching := (normalize_title_for_matching isalnum isspace).
Local Abbreviation keep := (kept isalnum isspace).

Lemma matching_drops (u v : str) (p : codepoint) :
  punctuation isalnum isspace p ->
  matching (Some (u ++ p :: v)) = matching (Some (u ++ v)).
Proof.
  intros [Ha Hs]. rewrite !matching_some. unfold words.
  rewrite !filter_app. simpl filter.
  unfold kept at 2. now rewrite Ha, Hs.
Qed.

Lemma keep_no_alnum (sep : str) :
  Forall (fun c => isalnum c = false) sep ->
  filter keep sep = filter isspace sep.
Proof.
  induction 1 as [|c sep Hc _ IH]; [reflexivity|].
  simpl. unfold kept at 1. now rewrite Hc, IH.
Qed.

Lemma filter_whitespace (s : str) :
  Forall (fun c => isspace c = true) (filter isspace s).
Proof. apply Forall_forall. intros c Hc. now apply filter_In in Hc. Qed.

Lemma filter_some (f : codepoint -> bool) (s : str) :
  Exists (fun c => f c = true) s -> filter f s <> [].
Proof.
  intros H E. apply Exists_exists in H as (c & Hin & Hc).
  assert (Hf : In c (filter f s)) by (apply filter_In; split; assumption).
  rewrite E in Hf. exact Hf.
Qed.

Section Disjoint.

Hypothesis disjoint : alnum_not_whitespace isalnum isspace.

Lemma alnum_word (w : str) :
  w <> [] -> Forall (fun c => isalnum c = true) w -> word isalnum isspace w.
Proof.
  intros Hne Hw. split; [exact Hne|].
  eapply Forall_impl; [|exact Hw]. intros c Hc. split; [exact Hc | auto].
Qed.

Lemma keep_alnum (w : str) :
  Forall (fun c => isalnum c = true) w -> filter keep w = w.
Proof.
  intros Hw. apply filter_all. eapply Forall_impl; [|exact Hw].
  intros c Hc. unfold kept. now rewrite Hc.
Qed.

Lemma alnum_survives (t : str) :
  filter isalnum (filter (fun c => negb (isspace c)) (filter keep t))
  = filter isalnum t.
Proof.
  induction t as [|c t IH]; [reflexivity|].
  simpl. unfold kept at 1.
  destruct (isalnum c) eqn:Ha.
  - simpl. rewrite (disjoint c Ha). simpl. now rewrite Ha, IH.
  - destruct (isspace c) eqn:Hs; simpl.
    + now rewrite Hs.
    + exact IH.
Qed.

End Disjoint.

End DeletionFacts.

(** ** The result depends on the database only through the characters of
    the title *)

Lemma scan_ext (f g : codepoint -> bool) (s : str) :
  (forall c, In c s -> f c = g c) -> scan f s = scan g s.
Proof.
  induction s as [|c s IH]; intros H; [reflexivity|].
  simpl. rewrite IH by (intros d Hd; apply H; now right).
  now rewrite (H c (or_introl eq_refl)).
Qed.

Lemma matching_ext (a a' sp sp' : codepoint -> bool) (t : str) :
  (forall c, In c t -> a c = a' c /\ sp c = sp' c) ->
  normalize_title_for_matching a sp (Some t)
  = normalize_title_for_matching a' sp' (Some t).
Proof.
  intros H. rewrite !matching_some. unfold words. f_equal. f_equal.
  assert (Hk : filter (kept a sp) t = filter (kept a' sp') t).
  { apply filter_ext_in. intros c Hc. unfold kept.
    destruct (H c Hc) as [-> ->]. reflexivity. }
  rewrite Hk. unfold split.
  rewrite (scan_ext sp sp'); [reflexivity|].
  intros c Hc. apply filter_In in Hc as [Hc _]. now apply H.
Qed.

(** ** Comparison and fuzzy matching *)

Section ComparisonFacts.

Variable isalnum : codepoint -> bool.
Variable isspace : codepoint -> bool.
Variable lower : str -> str.

Local Abbreviation matching := (normalize_title_for_matching isalnum isspace).
Local Abbreviation comparison :=
  (normalize_title_for_comparison isalnum isspace lower).
Local Abbreviation fuzzy := (fuzzy_title_match isalnum isspace lower).

Lemma comparison_of_matching (title : option str) (s : str) :
  matching title = Ok s -> comparison title = Ok (lower s).
Proof. intros H. unfold normalize_title_for_comparison. now rewrite H. Qed.

Lemma comparison_ok (title : option str) : exists s, comparison title = Ok s.
Proof.
  destruct (matching_ok isalnum isspace title) as [s Hs].
  exists (lower s). now apply comparison_of_matching.
Qed.

Lemma fuzzy_of_comparison (title1 title2 : option str) (a b : str) :
  comparison title1 = Ok a -> comparison title2 = Ok b ->
  fuzzy title1 title2 = Ok (str_eqb a b).
Proof. intros Ha Hb. unfold fuzzy_title_match. now rewrite Ha, Hb. Qed.

Lemma words_empty (t : str) :
  Forall (fun c => isalnum c = false) t ->
  split isspace (filter (kept isalnum isspace) t) = [].
Proof.
  intros Ht.
  pose proof (split_chunks isspace (filter (kept isalnum isspace) t)) as Hch.
  pose proof (concat_split isspace (filter (kept isalnum isspace) t)) as Hcat.
  rewrite (keep_no_alnum isalnum isspace t Ht) in *.
  rewrite (filter_none (fun c => negb (isspace c)) (filter isspace t))
    in Hcat.
  - revert Hch Hcat.
    destruct (split isspace (filter isspace t)) as [|w ws]; [reflexivity|].
    intros Hch Hcat. apply Forall_cons_iff in Hch as [[Hne _] _].
    destruct w; [congruence | discriminate Hcat].
  - eapply Forall_impl; [|apply filter_whitespace].
    intros c Hc. cbv beta in Hc. now rewrite Hc.
Qed.

Lemma words_nonempty (t : str) :
  alnum_not_whitespace isalnum isspace ->
  Exists (fun c => isalnum c = true) t ->
  join [SPACE] (split isspace (filter (kept isalnum isspace) t)) <> [].
Proof.
  intros Hdis Hex E.
  pose proof (split_chunks isspace (filter (kept isalnum isspace) t)) as Hch.
  pose proof (concat_split isspace (filter (kept isalnum isspace) t)) as Hcat.
  revert E Hch Hcat.
  destruct (split isspace (filter (kept isalnum isspace) t)) as [|w ws];
    intros E Hch Hcat.
  - apply Exists_exists in Hex as (c & Hin & Hc).
    assert (H : In c (filter (fun c => negb (isspace c))
                        (filter (kept isalnum isspace) t))).
    { apply filter_In. split.
      - apply filter_In. split; [exact Hin|]. unfold kept. now rewrite Hc.
      - now rewrite (Hdis c Hc). }
    rewrite <- Hcat in H. exact H.
  - apply Forall_cons_iff in Hch as [[Hne _] _].
    destruct w as [|b w]; [congruence|].
    destruct (join_head [SPACE] b w ws) as [rest Hr].
    discriminate (eq_trans (eq_sym Hr) E).
Qed.

End ComparisonFacts.

(** ** The Latin-1 table satisfies the facts the properties rely on *)

Lemma latin1_space_is_whitespace : space_is_whitespace Latin1.isspace.
Proof. reflexivity. Qed.

Lemma latin1_alnum_not_whitespace :
  alnum_not_whitespace Latin1.isalnum Latin1.isspace.
Proof.
  intros c Ha. destruct (Latin1.isspace c) eqn:Hs; [exfalso | reflexivity].
  unfold Latin1.isalnum, Latin1.isspace, Latin1.between in Ha, Hs.
  bool_hyp Ha; bool_hyp Hs; lia.
Qed.

Lemma latin1_lower_keeps_empty : lower_keeps_empty Latin1.lower.
Proof. reflexivity. Qed.

Lemma latin1_lower_keeps_nonempty : lower_keeps_nonempty Latin1.lower.
Proof. intros [|c s] H; [reflexivity | discriminate]. Qed.

Lemma latin1_agrees : agrees_on_latin1 Latin1.isalnum Latin1.isspace.
Proof. intros c _. split; reflexivity. Qed.

Lemma matching_on_latin1 (isalnum isspace : codepoint -> bool) (t : str) :
  agrees_on_latin1 isalnum isspace -> Forall (fun c => c < 256) t ->
  normalize_title_for_matching isalnum isspace (Some t)
  = Latin1.matching (Some t).
Proof.
  intros Hag Ht. apply matching_ext. intros c Hc.
  rewrite Forall_forall in Ht. apply Hag. now apply Ht.
Qed.

(** ** The properties of the specification *)

(** C1.  [fuzzy_title_match x y] returns [True] exactly when the two
    comparison forms are the same string, and [False] exactly when they
    differ; two absent titles match. *)
Theorem fuzzy_title_match_iff_equal
  (isalnum isspace : codepoint -> bool) (lower : str -> str)
  (x y : option str) :
  (exists a b,
      normalize_title_for_comparison isalnum isspace lower x = Ok a
      /\ normalize_title_for_comparison isalnum isspace lower y = Ok b
      /\ (fuzzy_title_match isalnum isspace lower x y = Ok true <-> a = b)
      /\ (fuzzy_title_match isalnum isspace lower x y = Ok false <-> a <> b))
  /\ fuzzy_title_match isalnum isspace lower None None = Ok true.
Proof.
  split.
  - destruct (comparison_ok isalnum isspace lower x) as [a Ha].
    destruct (comparison_ok isalnum isspace lower y) as [b Hb].
    exists a, b. rewrite (fuzzy_of_comparison _ _ _ x y a b Ha Hb).
    repeat split; try assumption.
    + intros [= H]. now apply str_eqb_eq.
    + intros H. f_equal. now apply str_eqb_eq.
    + intros [= H]. now apply str_eqb_neq.
    + intros H. f_equal. now apply str_eqb_neq.
  - unfold fuzzy_title_match, normalize_title_for_comparison. simpl.
    now rewrite str_eqb_refl.
Qed.

(** C2.  The result of [normalize_title_for_matching] holds only
    alphanumeric characters and ASCII spaces; every space stands between
    two alphanumeric characters, so no two spaces are adjacent and none
    leads or trails.  The result is a sequence of words joined by single
    spaces. *)
Theorem matching_output_shape
  (isalnum isspace : codepoint -> bool) (title : option str) :
  space_is_whitespace isspace ->
  exists o,
    normalize_title_for_matching isalnum isspace title = Ok o
    /\ only_alnum_and_space isalnum o
    /\ spaces_separate isalnum o
    /\ no_double_space o
    /\ no_leading_space o
    /\ no_trailing_space o
    /\ exists ws, o = join [SPACE] ws /\ Forall (word isalnum isspace) ws.
Proof.
  intros Hsp.
  destruct (matching_shape isalnum isspace title) as (ws & Ho & Hws).
  pose proof (joined_spaces_separate isalnum isspace Hsp ws Hws) as Hsep.
  exists (join [SPACE] ws). split; [exact Ho|].
  split; [now apply joined_only_alnum_and_space with (isspace := isspace)|].
  split; [exact Hsep|].
  split; [now apply separate_no_double with (isalnum := isalnum)|].
  split; [now apply separate_no_leading with (isalnum := isalnum)|].
  split; [now apply separate_no_trailing with (isalnum := isalnum)|].
  exists ws. split; [reflexivity | exact Hws].
Qed.

Lemma matching_output_shape_witness :
  space_is_whitespace Latin1.isspace
  /\ exists o,
      Latin1.matching (Some (literal "  Wait...  What? ")) = Ok o
      /\ only_alnum_and_space Latin1.isalnum o
      /\ spaces_separate Latin1.isalnum o
      /\ no_double_space o
      /\ no_leading_space o
      /\ no_trailing_space o
      /\ exists ws, o = join [SPACE] ws
                    /\ Forall (word Latin1.isalnum Latin1.isspace) ws.
Proof.
  split; [exact latin1_space_is_whitespace|].
  exact (matching_output_shape Latin1.isalnum Latin1.isspace
           (Some (literal "  Wait...  What? ")) latin1_space_is_whitespace).
Defined.

(** C3, as the specification words it, fails: a title made of punctuation
    only is present and non-empty, yet it normalizes to the empty string
    and so matches an absent title. *)
Lemma absent_matches_punctuation_only :
  literal "..." <> []
  /\ Latin1.fuzzy None (Some (literal "...")) = Ok true
  /\ Latin1.fuzzy (Some (literal "...")) None = Ok true.
Proof. split; [discriminate | split; reflexivity]. Qed.

(** C3, amended.  An absent title never matches a present title that has
    at least one alphanumeric character, in either argument order; it does
    match a present title that has none. *)
Theorem absent_never_matches_alnum_title
  (isalnum isspace : codepoint -> bool) (lower : str -> str) (t : str) :
  alnum_not_whitespace isalnum isspace ->
  lower_keeps_empty lower ->
  lower_keeps_nonempty lower ->
  (Exists (fun c => isalnum c = true) t ->
   fuzzy_title_match isalnum isspace lower None (Some t) = Ok false
   /\ fuzzy_title_match isalnum isspace lower (Some t) None = Ok false)
  /\ (Forall (fun c => isalnum c = false) t ->
      fuzzy_title_match isalnum isspace lower None (Some t) = Ok true
      /\ fuzzy_title_match isalnum isspace lower (Some t) None = Ok true).
Proof.
  intros Hdis Hle Hln.
  assert (Hnone : normalize_title_for_comparison isalnum isspace lower None
                  = Ok []).
  { unfold normalize_title_for_comparison. simpl. now rewrite Hle. }
  pose proof (comparison_of_matching isalnum isspace lower (Some t) _
                (matching_some isalnum isspace t)) as Hsome.
  unfold words in Hsome.
  rewrite (fuzzy_of_comparison _ _ _ _ _ _ _ Hnone Hsome).
  rewrite (fuzzy_of_comparison _ _ _ _ _ _ _ Hsome Hnone).
  split; intros Ht.
  - pose proof (words_nonempty isalnum isspace t Hdis Ht) as Hne.
    assert (Hl : [] <> lower
                   (join [SPACE]
                      (split isspace (filter (kept isalnum isspace) t)))).
    { intros E. apply Hne. apply Hln. now symmetry. }
    split; f_equal; apply str_eqb_neq; [exact Hl | congruence].
  - rewrite (words_empty isalnum isspace t Ht). simpl join. rewrite Hle.
    split; reflexivity.
Qed.

Lemma absent_never_matches_alnum_title_witness :
  alnum_not_whitespace Latin1.isalnum Latin1.isspace
  /\ lower_keeps_empty Latin1.lower
  /\ lower_keeps_nonempty Latin1.lower
  /\ Exists (fun c => Latin1.isalnum c = true) (literal "Something")
  /\ Latin1.fuzzy None (Some (literal "Something")) = Ok false
  /\ Latin1.fuzzy (Some (literal "Something")) None = Ok false.
Proof.
  split; [exact latin1_alnum_not_whitespace|].
  split; [exact latin1_lower_keeps_empty|].
  split; [exact latin1_lower_keeps_nonempty|].
  assert (H : Exists (fun c => Latin1.isalnum c = true) (literal "Something"))
    by (apply Exists_cons_hd; reflexivity).
  split; [exact H|].
  exact (proj1 (absent_never_matches_alnum_title
                  Latin1.isalnum Latin1.isspace Latin1.lower
                  (literal "Something")
                  latin1_alnum_not_whitespace latin1_lower_keeps_empty
                  latin1_lower_keeps_nonempty) H).
Defined.

(** C4.  [normalize_title_for_comparison] is [normalize_title_for_matching]
    followed by [lower] on the whole result. *)
Theorem comparison_is_lowered_matching
  (isalnum isspace : codepoint -> bool) (lower : str -> str)
  (x : option str) :
  exists s,
    normalize_title_for_matching isalnum isspace x = Ok s
    /\ normalize_title_for_comparison isalnum isspace lower x = Ok (lower s).
Proof.
  destruct (matching_ok isalnum isspace x) as [s Hs].
  exists s. split; [exact Hs | now apply comparison_of_matching].
Qed.

(** C5.  [normalize_title_for_matching] is idempotent: normalizing its own
    result gives that result again. *)
Theorem matching_idempotent
  (isalnum isspace : codepoint -> bool) (x : option str) :
  space_is_whitespace isspace ->
  exists s,
    normalize_title_for_matching isalnum isspace x = Ok s
    /\ normalize_title_for_matching isalnum isspace (Some s) = Ok s.
Proof.
  intros Hsp.
  destruct (matching_shape isalnum isspace x) as (ws & Ho & Hws).
  exists (join [SPACE] ws). split; [exact Ho|].
  now apply matching_joined.
Qed.

Lemma matching_idempotent_witness :
  space_is_whitespace Latin1.isspace
  /\ exists s,
      Latin1.matching (Some (literal "Star Wars: Episode IV")) = Ok s
      /\ Latin1.matching (Some s) = Ok s.
Proof.
  split; [exact latin1_space_is_whitespace|].
  exact (matching_idempotent Latin1.isalnum Latin1.isspace
           (Some (literal "Star Wars: Episode IV"))
           latin1_space_is_whitespace).
Defined.

Section FragmentFacts.

Variable isalnum : codepoint -> bool.
Variable isspace : codepoint -> bool.
Hypothesis disjoint : alnum_not_whitespace isalnum isspace.

Local Abbreviation matching := (normalize_title_for_matching isalnum isspace).
Local Abbreviation keep := (kept isalnum isspace).

Lemma alnum_chunk (w : str) :
  w <> [] -> Forall (fun c => isalnum c = true) w ->
  w <> [] /\ Forall (fun c => isspace c = false) w.
Proof.
  intros Hne Hw. apply (word_chunk isalnum isspace).
  now apply alnum_word.
Qed.

(** The alphanumeric characters of the result are those of the title. *)
Lemma matching_alnum_subsequence (t : str) :
  space_is_whitespace isspace ->
  filter isalnum
    (join [SPACE] (split isspace (filter keep t)))
  = filter isalnum t.
Proof.
  intros Hsp. rewrite filter_join.
  assert (Hs : filter isalnum [SPACE] = []).
  { simpl. destruct (isalnum SPACE) eqn:E; [|reflexivity].
    apply disjoint in E. unfold space_is_whitespace in Hsp. congruence. }
  rewrite Hs, join_nil_concat, concat_filter_map, concat_split.
  now apply alnum_survives.
Qed.

(** Fragments joined by punctuation only are concatenated. *)
Lemma matching_joined_by_punctuation (w1 sep w2 : str) :
  Forall (fun c => isalnum c = true) w1 ->
  Forall (fun c => isalnum c = true) w2 ->
  Forall (punctuation isalnum isspace) sep ->
  matching (Some (w1 ++ sep ++ w2)) = Ok (w1 ++ w2).
Proof.
  intros H1 H2 Hsep. rewrite matching_some. unfold words.
  rewrite !filter_app.
  rewrite (keep_alnum isalnum isspace w1 H1), (keep_alnum isalnum isspace w2 H2).
  rewrite (filter_none keep sep).
  - simpl app. destruct (w1 ++ w2) as [|c w] eqn:E; [reflexivity|].
    rewrite split_one_word; [reflexivity|].
    rewrite <- E. apply alnum_chunk.
    + rewrite E. discriminate.
    + apply Forall_app. split; assumption.
  - eapply Forall_impl; [|exact Hsep].
    intros c [Ha Hs]. unfold kept. now rewrite Ha, Hs.
Qed.

(** Fragments with whitespace between them stay apart, by one space. *)
Lemma matching_separated_by_space (w1 sep w2 : str) :
  w1 <> [] -> w2 <> [] ->
  Forall (fun c => isalnum c = true) w1 ->
  Forall (fun c => isalnum c = true) w2 ->
  Forall (fun c => isalnum c = false) sep ->
  Exists (fun c => isspace c = true) sep ->
  matching (Some (w1 ++ sep ++ w2)) = Ok (w1 ++ [SPACE] ++ w2).
Proof.
  intros N1 N2 H1 H2 Hsep Hex. rewrite matching_some. unfold words.
  rewrite !filter_app.
  rewrite (keep_alnum isalnum isspace w1 H1), (keep_alnum isalnum isspace w2 H2).
  rewrite (keep_no_alnum isalnum isspace sep Hsep).
  rewrite (split_word_spaces_app isspace w1 (filter isspace sep) w2).
  - rewrite (split_one_word isspace w2); [reflexivity|].
    now apply alnum_chunk.
  - now apply alnum_chunk.
  - now apply filter_some.
  - apply filter_whitespace.
Qed.

End FragmentFacts.

Lemma below_256 (t : str) :
  forallb (fun c => c <? 256) t = true -> Forall (fun c => c < 256) t.
Proof.
  intros H. apply Forall_forall. intros c Hc.
  rewrite forallb_forall in H. now apply N.ltb_lt, H.
Qed.

(** C7.  The literal scenarios: a run of spaces collapses to one, a title
    of punctuation only normalizes to the empty string, and a non-ASCII
    letter is kept. *)
Theorem matching_literal_scenarios (isalnum isspace : codepoint -> bool) :
  agrees_on_latin1 isalnum isspace ->
  normalize_title_for_matching isalnum isspace (Some (literal "The   Matrix"))
  = Ok (literal "The Matrix")
  /\ normalize_title_for_matching isalnum isspace (Some (literal "...!!!???"))
     = Ok (literal "")
  /\ normalize_title_for_matching isalnum isspace
       (Some (literal "Thor: Ragnarök"))
     = Ok (literal "Thor Ragnarök").
Proof.
  intros Hag.
  repeat split;
    (rewrite (matching_on_latin1 isalnum isspace _ Hag);
     [reflexivity | apply below_256; reflexivity]).
Qed.

Lemma matching_literal_scenarios_witness :
  agrees_on_latin1 Latin1.isalnum Latin1.isspace
  /\ Latin1.matching (Some (literal "The   Matrix")) = Ok (literal "The Matrix")
  /\ Latin1.matching (Some (literal "...!!!???")) = Ok (literal "")
  /\ Latin1.matching (Some (literal "Thor: Ragnarök"))
     = Ok (literal "Thor Ragnarök").
Proof.
  split; [exact latin1_agrees|].
  exact (matching_literal_scenarios Latin1.isalnum Latin1.isspace
           latin1_agrees).
Defined.

(** C8.  The three operations return a value on every input, the absent
    one and the empty string included, and raise nothing; both
    normalizations return the empty string on an absent and on an empty
    title. *)
Theorem operations_total
  (isalnum isspace : codepoint -> bool) (lower : str -> str)
  (title title2 : option str) :
  lower_keeps_empty lower ->
  (exists s, normalize_title_for_matching isalnum isspace title = Ok s)
  /\ (exists s,
         normalize_title_for_comparison isalnum isspace lower title = Ok s)
  /\ (exists b, fuzzy_title_match isalnum isspace lower title title2 = Ok b)
  /\ normalize_title_for_matching isalnum isspace None = Ok []
  /\ normalize_title_for_matching isalnum isspace (Some []) = Ok []
  /\ normalize_title_for_comparison isalnum isspace lower None = Ok []
  /\ normalize_title_for_comparison isalnum isspace lower (Some []) = Ok [].
Proof.
  intros Hle.
  split; [apply matching_ok|].
  split; [apply comparison_ok|].
  split.
  { destruct (comparison_ok isalnum isspace lower title) as [a Ha].
    destruct (comparison_ok isalnum isspace lower title2) as [b Hb].
    exists (str_eqb a b). now apply fuzzy_of_comparison. }
  unfold normalize_title_for_comparison. simpl. rewrite Hle.
  repeat split; reflexivity.
Qed.

Lemma operations_total_witness :
  lower_keeps_empty Latin1.lower
  /\ (exists s, Latin1.matching None = Ok s)
  /\ (exists s, Latin1.comparison None = Ok s)
  /\ (exists b, Latin1.fuzzy None (Some (literal "Something")) = Ok b).
Proof.
  split; [exact latin1_lower_keeps_empty|].
  pose proof (operations_total Latin1.isalnum Latin1.isspace Latin1.lower
                None (Some (literal "Something")) latin1_lower_keeps_empty)
    as (H1 & H2 & H3 & _).
  split; [exact H1 | split; [exact H2 | exact H3]].
Defined.

(** C9.  [fuzzy_title_match] is reflexive and symmetric. *)
Theorem fuzzy_title_match_refl_sym
  (isalnum isspace : codepoint -> bool) (lower : str -> str)
  (x y : option str) :
  fuzzy_title_match isalnum isspace lower x x = Ok true
  /\ fuzzy_title_match isalnum isspace lower x y
     = fuzzy_title_match isalnum isspace lower y x.
Proof.
  destruct (comparison_ok isalnum isspace lower x) as [a Ha].
  destruct (comparison_ok isalnum isspace lower y) as [b Hb].
  rewrite (fuzzy_of_comparison _ _ _ x x a a Ha Ha).
  rewrite (fuzzy_of_comparison _ _ _ x y a b Ha Hb).
  rewrite (fuzzy_of_comparison _ _ _ y x b a Hb Ha).
  split; [now rewrite str_eqb_refl | now rewrite str_eqb_sym].
Qed.

(** C10.  Normalizing for matching first does not change the comparison
    form, so every title matches its own normalization. *)
Theorem matching_preserves_comparison
  (isalnum isspace : codepoint -> bool) (lower : str -> str)
  (x : option str) :
  space_is_whitespace isspace ->
  exists s,
    normalize_title_for_matching isalnum isspace x = Ok s
    /\ normalize_title_for_comparison isalnum isspace lower (Some s)
       = normalize_title_for_comparison isalnum isspace lower x
    /\ fuzzy_title_match isalnum isspace lower x (Some s) = Ok true.
Proof.
  intros Hsp.
  destruct (matching_shape isalnum isspace x) as (ws & Hs & Hws).
  pose proof (matching_joined isalnum isspace Hsp ws Hws) as Hss.
  exists (join [SPACE] ws). split; [exact Hs|].
  set (s := join [SPACE] ws) in *.
  pose proof (comparison_of_matching isalnum isspace lower x s Hs) as Hx.
  pose proof (comparison_of_matching isalnum isspace lower (Some s) s Hss)
    as Hn.
  split; [now rewrite Hx, Hn|].
  rewrite (fuzzy_of_comparison _ _ _ x (Some s) _ _ Hx Hn).
  now rewrite str_eqb_refl.
Qed.

Lemma matching_preserves_comparison_witness :
  space_is_whitespace Latin1.isspace
  /\ exists s,
      Latin1.matching (Some (literal "Bob's Burgers")) = Ok s
      /\ Latin1.comparison (Some s)
         = Latin1.comparison (Some (literal "Bob's Burgers"))
      /\ Latin1.fuzzy (Some (literal "Bob's Burgers")) (Some s) = Ok true.
Proof.
  split; [exact latin1_space_is_whitespace|].
  exact (matching_preserves_comparison Latin1.isalnum Latin1.isspace
           Latin1.lower (Some (literal "Bob's Burgers"))
           latin1_space_is_whitespace).
Defined.

(** ** Further properties of the module

    What follows goes beyond the specification: how whitespace, length,
    emptiness and letter case behave under the three functions. *)

(** *** Splitting at a whitespace character *)

Section SplitAppend.

Variable isspace : codepoint -> bool.

Lemma scan_app_space (u v : str) (s : codepoint) :
  isspace s = true ->
  scan isspace (u ++ s :: v)
  = (fst (scan isspace u), snd (scan isspace u) ++ split isspace v).
Proof.
  intros Hs. induction u as [|c u IH].
  - simpl app. rewrite scan_cons, Hs. reflexivity.
  - change ((c :: u) ++ s :: v) with (c :: (u ++ s :: v)).
    rewrite !scan_cons. unfold split at 1. rewrite IH. cbn [fst snd].
    destruct (isspace c); [|reflexivity].
    unfold split. destruct (scan isspace u) as [w ws]. cbn [fst snd].
    now rewrite app_assoc.
Qed.

Lemma split_app_space (u v : str) (s : codepoint) :
  isspace s = true ->
  split isspace (u ++ s :: v) = split isspace u ++ split isspace v.
Proof.
  intros Hs. unfold split at 1 2. rewrite (scan_app_space u v s Hs).
  destruct (scan isspace u) as [w ws]. cbn [fst snd].
  now rewrite app_assoc.
Qed.

Lemma split_all_space (sp : str) :
  Forall (fun c => isspace c = true) sp -> split isspace sp = [].
Proof.
  intros H. rewrite <- (app_nil_r sp).
  now rewrite (split_spaces_app isspace sp [] H).
Qed.

(** The joined words of a string are never longer than the string. *)
Lemma join_length_le (c : codepoint) (ws : list str) :
  (length (join [c] ws) <= length (concat ws) + Nat.pred (length ws))%nat.
Proof.
  induction ws as [|w ws IH]; [simpl; lia|].
  destruct ws as [|w' ws].
  - simpl. rewrite app_nil_r. lia.
  - rewrite (join_cons [c] w (w' :: ws)) by discriminate.
    change (concat (w :: w' :: ws)) with (w ++ concat (w' :: ws)).
    rewrite !length_app. cbn [length Nat.pred] in *. lia.
Qed.

Lemma scan_length (s : str) :
  (length (fst (scan isspace s)) + length (concat (snd (scan isspace s)))
   + length (snd (scan isspace s)) <= length s)%nat.
Proof.
  induction s as [|c s IH]; [simpl; lia|].
  rewrite scan_cons. unfold split.
  destruct (scan isspace s) as [w ws]. cbn [fst snd] in *.
  destruct (isspace c); cbn [fst snd length].
  - rewrite concat_app, !length_app, flush_concat.
    destruct w; cbn [flush length] in *; lia.
  - lia.
Qed.

Lemma split_join_length (c : codepoint) (s : str) :
  (length (join [c] (split isspace s)) <= length s)%nat.
Proof.
  pose proof (scan_length s) as H.
  pose proof (join_length_le c (split isspace s)) as J.
  unfold split in *. destruct (scan isspace s) as [w ws]. cbn [fst snd] in H.
  rewrite concat_app, !length_app, flush_concat in J.
  destruct w; cbn [flush length Nat.pred Nat.add] in *; lia.
Qed.

End SplitAppend.

Section WhitespaceFacts.

Variable isalnum : codepoint -> bool.
Variable isspace : codepoint -> bool.

Local Abbreviation matching := (normalize_title_for_matching isalnum isspace).

Lemma kept_whitespace (s : codepoint) :
  isspace s = true -> kept isalnum isspace s = true.
Proof. intros H. unfold kept. rewrite H. apply orb_true_r. Qed.

Lemma words_app_space (u v : str) (s : codepoint) :
  isspace s = true ->
  words isalnum isspace (u ++ s :: v)
  = words isalnum isspace u ++ words isalnum isspace v.
Proof.
  intros Hs. unfold words. rewrite filter_app. cbn [filter].
  rewrite (kept_whitespace s Hs). now apply split_app_space.
Qed.

Lemma words_all_space (sp : str) :
  Forall (fun c => isspace c = true) sp -> words isalnum isspace sp = [].
Proof.
  intros H. unfold words. apply split_all_space.
  apply Forall_forall. intros c Hc. apply filter_In in Hc as [Hc _].
  rewrite Forall_forall in H. now apply H.
Qed.

Lemma words_leading_space (sp t : str) :
  Forall (fun c => isspace c = true) sp ->
  words isalnum isspace (sp ++ t) = words isalnum isspace t.
Proof.
  induction 1 as [|s sp Hs _ IH]; [reflexivity|].
  change ((s :: sp) ++ t) with ([] ++ s :: (sp ++ t)).
  now rewrite (words_app_space [] (sp ++ t) s Hs), IH.
Qed.

Lemma words_trailing_space (t sp : str) :
  Forall (fun c => isspace c = true) sp ->
  words isalnum isspace (t ++ sp) = words isalnum isspace t.
Proof.
  intros H. destruct sp as [|s sp]; [now rewrite app_nil_r|].
  apply Forall_cons_iff in H as [Hs H].
  rewrite (words_app_space t sp s Hs), (words_all_space sp H).
  apply app_nil_r.
Qed.

Lemma matching_words_eq (t t' : str) :
  words isalnum isspace t = words isalnum isspace t' ->
  matching (Some t) = matching (Some t').
Proof. intros H. now rewrite !matching_some, H. Qed.

End WhitespaceFacts.

(** X1.  [fuzzy_title_match] is transitive: with reflexivity and symmetry
    it is an equivalence relation on titles. *)
Theorem fuzzy_title_match_trans
  (isalnum isspace : codepoint -> bool) (lower : str -> str)
  (x y z : option str) :
  fuzzy_title_match isalnum isspace lower x y = Ok true ->
  fuzzy_title_match isalnum isspace lower y z = Ok true ->
  fuzzy_title_match isalnum isspace lower x z = Ok true.
Proof.
  destruct (comparison_ok isalnum isspace lower x) as [a Ha].
  destruct (comparison_ok isalnum isspace lower y) as [b Hb].
  destruct (comparison_ok isalnum isspace lower z) as [c Hc].
  rewrite (fuzzy_of_comparison _ _ _ x y a b Ha Hb).
  rewrite (fuzzy_of_comparison _ _ _ y z b c Hb Hc).
  rewrite (fuzzy_of_comparison _ _ _ x z a c Ha Hc).
  intros [= Hab] [= Hbc]. f_equal.
  apply str_eqb_eq in Hab, Hbc. apply str_eqb_eq. congruence.
Qed.

Lemma fuzzy_title_match_trans_witness :
  Latin1.fuzzy (Some (literal "Spider-Man")) (Some (literal "SpiderMan"))
  = Ok true
  /\ Latin1.fuzzy (Some (literal "SpiderMan")) (Some (literal "SPIDERMAN"))
     = Ok true
  /\ Latin1.fuzzy (Some (literal "Spider-Man")) (Some (literal "SPIDERMAN"))
     = Ok true.
Proof.
  split; [reflexivity|]. split; [reflexivity|].
  exact (fuzzy_title_match_trans Latin1.isalnum Latin1.isspace Latin1.lower
           (Some (literal "Spider-Man")) (Some (literal "SpiderMan"))
           (Some (literal "SPIDERMAN")) eq_refl eq_refl).
Defined.

(** X2.  Any whitespace character separates words like any other: the
    result does not depend on which whitespace character stands at a
    place, and a whitespace character next to another one adds nothing. *)
Theorem matching_whitespace_is_one_separator
  (isalnum isspace : codepoint -> bool) (u v : str) (s s' : codepoint) :
  isspace s = true -> isspace s' = true ->
  normalize_title_for_matching isalnum isspace (Some (u ++ s' :: v))
  = normalize_title_for_matching isalnum isspace (Some (u ++ s :: v))
  /\ normalize_title_for_matching isalnum isspace (Some (u ++ s :: s' :: v))
     = normalize_title_for_matching isalnum isspace (Some (u ++ s :: v)).
Proof.
  intros Hs Hs'. split; apply matching_words_eq.
  - now rewrite !words_app_space.
  - rewrite !(words_app_space isalnum isspace u _ s Hs). f_equal.
    exact (words_app_space isalnum isspace [] v s' Hs').
Qed.

Lemma matching_whitespace_is_one_separator_witness :
  Latin1.isspace 9 = true /\ Latin1.isspace 10 = true
  /\ Latin1.matching (Some (literal "The" ++ 10 :: literal "Matrix"))
     = Latin1.matching (Some (literal "The" ++ 9 :: literal "Matrix"))
  /\ Latin1.matching (Some (literal "The" ++ 9 :: 10 :: literal "Matrix"))
     = Latin1.matching (Some (literal "The" ++ 9 :: literal "Matrix")).
Proof.
  split; [reflexivity|]. split; [reflexivity|].
  exact (matching_whitespace_is_one_separator Latin1.isalnum Latin1.isspace
           (literal "The") (literal "Matrix") 9 10 eq_refl eq_refl).
Defined.

(** X3.  Whitespace before and after a title is ignored, whatever its
    length and kind. *)
Theorem matching_ignores_outer_whitespace
  (isalnum isspace : codepoint -> bool) (sp t sp' : str) :
  Forall (fun c => isspace c = true) sp ->
  Forall (fun c => isspace c = true) sp' ->
  normalize_title_for_matching isalnum isspace (Some (sp ++ t ++ sp'))
  = normalize_title_for_matching isalnum isspace (Some t).
Proof.
  intros H H'. apply matching_words_eq.
  now rewrite words_leading_space, words_trailing_space.
Qed.

Lemma matching_ignores_outer_whitespace_witness :
  Forall (fun c => Latin1.isspace c = true) [9; 32]
  /\ Forall (fun c => Latin1.isspace c = true) [10]
  /\ Latin1.matching (Some ([9; 32] ++ literal "Bob's Burgers" ++ [10]))
     = Latin1.matching (Some (literal "Bob's Burgers")).
Proof.
  assert (H : Forall (fun c => Latin1.isspace c = true) [9; 32])
    by (repeat constructor).
  assert (H' : Forall (fun c => Latin1.isspace c = true) [10])
    by (repeat constructor).
  split; [exact H|]. split; [exact H'|].
  exact (matching_ignores_outer_whitespace Latin1.isalnum Latin1.isspace
           [9; 32] (literal "Bob's Burgers") [10] H H').
Defined.

(** X4.  Normalization never lengthens a title: the result has at most as
    many characters as the title. *)
Theorem matching_length_le
  (isalnum isspace : codepoint -> bool) (title : option str) :
  exists o,
    normalize_title_for_matching isalnum isspace title = Ok o
    /\ (length o
        <= match title with Some t => length t | None => 0 end)%nat.
Proof.
  destruct title as [t|].
  - eexists. split; [apply matching_some|]. unfold words.
    etransitivity; [apply split_join_length | apply filter_length_le].
  - exists []. split; [reflexivity | apply le_n].
Qed.

(** X5.  The result for a present title is the empty string exactly when
    the title has no alphanumeric character. *)
Theorem matching_empty_iff_no_alnum
  (isalnum isspace : codepoint -> bool) (t : str) :
  alnum_not_whitespace isalnum isspace ->
  normalize_title_for_matching isalnum isspace (Some t) = Ok []
  <-> Forall (fun c => isalnum c = false) t.
Proof.
  intros Hdis. rewrite matching_some. unfold words. split.
  - intros [= E]. apply Forall_forall. intros c Hc.
    destruct (isalnum c) eqn:Ha; [exfalso | reflexivity].
    apply (words_nonempty isalnum isspace t Hdis); [|exact E].
    apply Exists_exists. exists c. split; assumption.
  - intros H. now rewrite (words_empty isalnum isspace t H).
Qed.

Lemma matching_empty_iff_no_alnum_witness :
  alnum_not_whitespace Latin1.isalnum Latin1.isspace
  /\ (Latin1.matching (Some (literal " - ")) = Ok []
      <-> Forall (fun c => Latin1.isalnum c = false) (literal " - ")).
Proof.
  split; [exact latin1_alnum_not_whitespace|].
  exact (matching_empty_iff_no_alnum Latin1.isalnum Latin1.isspace
           (literal " - ") latin1_alnum_not_whitespace).
Defined.

(** X6.  The titles that normalization leaves unchanged are exactly the
    normal forms: words of alphanumeric characters joined by single ASCII
    spaces. *)
Theorem matching_fixed_iff_normal_form
  (isalnum isspace : codepoint -> bool) (s : str) :
  space_is_whitespace isspace ->
  normalize_title_for_matching isalnum isspace (Some s) = Ok s
  <-> exists ws, s = join [SPACE] ws /\ Forall (word isalnum isspace) ws.
Proof.
  intros Hsp. split.
  - intros H. exists (words isalnum isspace s). split.
    + rewrite matching_some in H. now injection H.
    + apply words_are_words.
  - intros (ws & -> & Hws). now apply matching_joined.
Qed.

Lemma matching_fixed_iff_normal_form_witness :
  space_is_whitespace Latin1.isspace
  /\ (Latin1.matching (Some (literal "The Matrix")) = Ok (literal "The Matrix")
      <-> exists ws,
          literal "The Matrix" = join [SPACE] ws
          /\ Forall (word Latin1.isalnum Latin1.isspace) ws).
Proof.
  split; [exact latin1_space_is_whitespace|].
  exact (matching_fixed_iff_normal_form Latin1.isalnum Latin1.isspace
           (literal "The Matrix") latin1_space_is_whitespace).
Defined.

(** *** Letter case on U+0000 .. U+00FF *)

Section MapFacts.

Variable isalnum : codepoint -> bool.
Variable isspace : codepoint -> bool.
Variable f : codepoint -> codepoint.

Lemma flush_map (w : str) : flush (map f w) = map (map f) (flush w).
Proof. destruct w; reflexivity. Qed.

Lemma scan_map (s : str) :
  (forall c, In c s -> isspace (f c) = isspace c) ->
  scan isspace (map f s)
  = (map f (fst (scan isspace s)), map (map f) (snd (scan isspace s))).
Proof.
  induction s as [|c s IH]; intros H; [reflexivity|].
  cbn [map scan]. rewrite IH by (intros d Hd; apply H; now right).
  rewrite (H c (or_introl eq_refl)).
  destruct (scan isspace s) as [w ws]. cbn [fst snd].
  destruct (isspace c); cbn [fst snd map]; [|reflexivity].
  now rewrite map_app, flush_map.
Qed.

Lemma split_map (s : str) :
  (forall c, In c s -> isspace (f c) = isspace c) ->
  split isspace (map f s) = map (map f) (split isspace s).
Proof.
  intros H. unfold split. rewrite (scan_map s H).
  destruct (scan isspace s) as [w ws]. cbn [fst snd].
  now rewrite map_app, flush_map.
Qed.

Lemma join_map (sep : str) (ws : list str) :
  map f (join sep ws) = join (map f sep) (map (map f) ws).
Proof.
  induction ws as [|w ws IH]; [reflexivity|].
  destruct ws as [|w' ws]; [reflexivity|].
  rewrite (join_cons sep w (w' :: ws)) by discriminate.
  cbn [map]. rewrite (join_cons (map f sep) (map f w)) by discriminate.
  now rewrite !map_app, IH.
Qed.

Lemma filter_kept_map (t : str) :
  (forall c, In c t ->
     isalnum (f c) = isalnum c /\ isspace (f c) = isspace c) ->
  filter (kept isalnum isspace) (map f t)
  = map f (filter (kept isalnum isspace) t).
Proof.
  induction t as [|c t IH]; intros H; [reflexivity|].
  cbn [map filter]. rewrite IH by (intros d Hd; apply H; now right).
  assert (Hk : kept isalnum isspace (f c) = kept isalnum isspace c).
  { unfold kept. now destruct (H c (or_introl eq_refl)) as [-> ->]. }
  rewrite Hk. destruct (kept isalnum isspace c); reflexivity.
Qed.

(** A character map that keeps the classes and the ASCII space commutes
    with the normalization. *)
Lemma matching_map (t : str) :
  (forall c, In c t ->
     isalnum (f c) = isalnum c /\ isspace (f c) = isspace c) ->
  f SPACE = SPACE ->
  normalize_title_for_matching isalnum isspace (Some (map f t))
  = Ok (map f (join [SPACE] (words isalnum isspace t))).
Proof.
  intros H Hsp. rewrite matching_some, join_map. cbn [map]. rewrite Hsp.
  unfold words. rewrite (filter_kept_map t H). rewrite split_map; [reflexivity|].
  intros c Hc. apply filter_In in Hc as [Hc _]. now apply H.
Qed.

(** The characters of the result are characters of the title or the ASCII
    space. *)
Lemma join_words_in (t : str) (c : codepoint) :
  In c (join [SPACE] (words isalnum isspace t)) -> c = SPACE \/ In c t.
Proof.
  unfold words. intros Hc.
  assert (Hj : forall ws, In c (join [SPACE] ws) ->
                          c = SPACE \/ In c (concat ws)).
  { induction ws as [|w ws IH]; [intros []|].
    destruct ws as [|w' ws].
    - simpl. rewrite app_nil_r. now right.
    - rewrite (join_cons [SPACE] w (w' :: ws)) by discriminate.
      change (concat (w :: w' :: ws)) with (w ++ concat (w' :: ws)).
      rewrite !in_app_iff. intros [Hw | [[<- | []] | Hr]].
      + right. now left.
      + now left.
      + destruct (IH Hr) as [-> | Hin]; [now left | right; now right]. }
  destruct (Hj _ Hc) as [-> | Hin]; [now left | right].
  rewrite concat_split in Hin.
  apply filter_In in Hin as [Hin _]. now apply filter_In in Hin as [Hin _].
Qed.

End MapFacts.

Lemma latin1_cases (P : codepoint -> bool) :
  forallb P (map N.of_nat (seq 0 256)) = true ->
  forall c, c < 256 -> P c = true.
Proof.
  intros H c Hc. rewrite forallb_forall in H. apply H.
  apply in_map_iff. exists (N.to_nat c). split; [apply N2Nat.id|].
  apply in_seq. lia.
Qed.

(** On U+0000 .. U+00FF lowering a character keeps its class, stays in the
    range and is idempotent. *)
Lemma latin1_lower_char_facts (c : codepoint) :
  c < 256 ->
  Latin1.isalnum (Latin1.lower_char c) = Latin1.isalnum c
  /\ Latin1.isspace (Latin1.lower_char c) = Latin1.isspace c
  /\ Latin1.lower_char c < 256
  /\ Latin1.lower_char (Latin1.lower_char c) = Latin1.lower_char c.
Proof.
  intros Hc.
  pose proof (latin1_cases
    (fun c => Bool.eqb (Latin1.isalnum (Latin1.lower_char c)) (Latin1.isalnum c)
              && Bool.eqb (Latin1.isspace (Latin1.lower_char c))
                   (Latin1.isspace c)
              && (Latin1.lower_char c <? 256)
              && (Latin1.lower_char (Latin1.lower_char c)
                  =? Latin1.lower_char c))
    eq_refl c Hc) as H.
  cbv beta in H.
  apply andb_true_iff in H as [H H4]. apply andb_true_iff in H as [H H3].
  apply andb_true_iff in H as [H1 H2].
  repeat split.
  - now apply Bool.eqb_prop.
  - now apply Bool.eqb_prop.
  - now apply N.ltb_lt.
  - now apply N.eqb_eq.
Qed.

Lemma latin1_lower_in_range (t : str) :
  Forall (fun c => c < 256) t -> Forall (fun c => c < 256) (Latin1.lower t).
Proof.
  intros H. unfold Latin1.lower. apply Forall_map.
  eapply Forall_impl; [|exact H]. intros c Hc.
  now apply latin1_lower_char_facts.
Qed.

Lemma latin1_lower_idempotent (t : str) :
  Forall (fun c => c < 256) t ->
  Latin1.lower (Latin1.lower t) = Latin1.lower t.
Proof.
  intros H. unfold Latin1.lower. rewrite map_map. apply map_ext_in.
  intros c Hc. rewrite Forall_forall in H.
  now apply latin1_lower_char_facts, H.
Qed.

Lemma latin1_matching_in_range (t o : str) :
  Forall (fun c => c < 256) t -> Latin1.matching (Some t) = Ok o ->
  Forall (fun c => c < 256) o.
Proof.
  intros Ht H. unfold Latin1.matching in H. rewrite matching_some in H.
  injection H as <-. apply Forall_forall. intros c Hc.
  apply join_words_in in Hc as [-> | Hc]; [reflexivity|].
  rewrite Forall_forall in Ht. now apply Ht.
Qed.

(** Lowering before or after the normalization gives the same string. *)
Lemma latin1_matching_lower (t : str) :
  Forall (fun c => c < 256) t ->
  exists o, Latin1.matching (Some t) = Ok o
            /\ Latin1.matching (Some (Latin1.lower t)) = Ok (Latin1.lower o).
Proof.
  intros Ht. eexists. split; [apply matching_some|].
  unfold Latin1.matching, Latin1.lower. apply matching_map; [|reflexivity].
  intros c Hc. rewrite Forall_forall in Ht.
  destruct (latin1_lower_char_facts c (Ht c Hc)) as (Ha & Hs & _).
  split; assumption.
Qed.

Section Latin1Database.

Variable isalnum : codepoint -> bool.
Variable isspace : codepoint -> bool.
Variable lower : str -> str.
Hypothesis classes : agrees_on_latin1 isalnum isspace.
Hypothesis lowering : lower_agrees_on_latin1 lower.

Lemma comparison_lower_commute (t : str) :
  Forall (fun c => c < 256) t ->
  normalize_title_for_comparison isalnum isspace lower (Some t)
  = normalize_title_for_matching isalnum isspace (Some (lower t)).
Proof.
  intros Ht. destruct (latin1_matching_lower t Ht) as (o & Ho & Hl).
  pose proof (latin1_matching_in_range t o Ht Ho) as Hr.
  unfold normalize_title_for_comparison.
  rewrite (matching_on_latin1 isalnum isspace t classes Ht), Ho.
  cbn [bind]. rewrite (lowering o Hr), (lowering t Ht).
  rewrite (matching_on_latin1 isalnum isspace _ classes
             (latin1_lower_in_range t Ht)).
  now rewrite Hl.
Qed.

Lemma comparison_lower_absorbed (t : str) :
  Forall (fun c => c < 256) t ->
  normalize_title_for_comparison isalnum isspace lower (Some (lower t))
  = normalize_title_for_comparison isalnum isspace lower (Some t).
Proof.
  intros Ht. destruct (latin1_matching_lower t Ht) as (o & Ho & Hl).
  pose proof (latin1_matching_in_range t o Ht Ho) as Hr.
  unfold normalize_title_for_comparison.
  rewrite (lowering t Ht).
  rewrite (matching_on_latin1 isalnum isspace _ classes
             (latin1_lower_in_range t Ht)), Hl.
  rewrite (matching_on_latin1 isalnum isspace t classes Ht), Ho.
  cbn [bind]. rewrite (lowering _ (latin1_lower_in_range o Hr)).
  rewrite (lowering o Hr). now rewrite (latin1_lower_idempotent o Hr).
Qed.

End Latin1Database.

Lemma latin1_lower_agrees : lower_agrees_on_latin1 Latin1.lower.
Proof. intros s _. reflexivity. Qed.

(** X7.  For a title of characters in U+0000 .. U+00FF, lowering the title
    first and normalizing for matching gives the comparison form: the
    normalization and [lower] commute. *)
Theorem comparison_is_matching_of_lowered
  (isalnum isspace : codepoint -> bool) (lower : str -> str) (t : str) :
  agrees_on_latin1 isalnum isspace ->
  lower_agrees_on_latin1 lower ->
  Forall (fun c => c < 256) t ->
  normalize_title_for_comparison isalnum isspace lower (Some t)
  = normalize_title_for_matching isalnum isspace (Some (lower t)).
Proof.
  intros Hc Hl Ht. now apply comparison_lower_commute.
Qed.

Lemma comparison_is_matching_of_lowered_witness :
  agrees_on_latin1 Latin1.isalnum Latin1.isspace
  /\ lower_agrees_on_latin1 Latin1.lower
  /\ Forall (fun c => c < 256) (literal "Thor: Ragnarök")
  /\ Latin1.comparison (Some (literal "Thor: Ragnarök"))
     = Latin1.matching (Some (Latin1.lower (literal "Thor: Ragnarök"))).
Proof.
  assert (Ht : Forall (fun c => c < 256) (literal "Thor: Ragnarök"))
    by (apply below_256; reflexivity).
  split; [exact latin1_agrees|]. split; [exact latin1_lower_agrees|].
  split; [exact Ht|].
  exact (comparison_is_matching_of_lowered Latin1.isalnum Latin1.isspace
           Latin1.lower (literal "Thor: Ragnarök")
           latin1_agrees latin1_lower_agrees Ht).
Defined.

(** X8.  Letter case is ignored: two titles of characters in
    U+0000 .. U+00FF that have the same [lower()] match. *)
Theorem fuzzy_title_match_ignores_case
  (isalnum isspace : codepoint -> bool) (lower : str -> str)
  (t1 t2 : str) :
  agrees_on_latin1 isalnum isspace ->
  lower_agrees_on_latin1 lower ->
  Forall (fun c => c < 256) t1 ->
  Forall (fun c => c < 256) t2 ->
  lower t1 = lower t2 ->
  fuzzy_title_match isalnum isspace lower (Some t1) (Some t2) = Ok true.
Proof.
  intros Hc Hl H1 H2 E.
  destruct (comparison_ok isalnum isspace lower (Some t1)) as [a Ha].
  destruct (comparison_ok isalnum isspace lower (Some t2)) as [b Hb].
  rewrite (fuzzy_of_comparison _ _ _ _ _ a b Ha Hb). f_equal.
  apply str_eqb_eq.
  rewrite <- (comparison_lower_absorbed isalnum isspace lower Hc Hl t1 H1)
    in Ha.
  rewrite <- (comparison_lower_absorbed isalnum isspace lower Hc Hl t2 H2)
    in Hb.
  rewrite E in Ha. congruence.
Qed.

Lemma fuzzy_title_match_ignores_case_witness :
  agrees_on_latin1 Latin1.isalnum Latin1.isspace
  /\ lower_agrees_on_latin1 Latin1.lower
  /\ Forall (fun c => c < 256) (literal "AMÉLIE")
  /\ Forall (fun c => c < 256) (literal "Amélie")
  /\ Latin1.lower (literal "AMÉLIE") = Latin1.lower (literal "Amélie")
  /\ Latin1.fuzzy (Some (literal "AMÉLIE")) (Some (literal "Amélie")) = Ok true.
Proof.
  assert (H1 : Forall (fun c => c < 256) (literal "AMÉLIE"))
    by (apply below_256; reflexivity).
  assert (H2 : Forall (fun c => c < 256) (literal "Amélie"))
    by (apply below_256; reflexivity).
  split; [exact latin1_agrees|]. split; [exact latin1_lower_agrees|].
  split; [exact H1|]. split; [exact H2|]. split; [reflexivity|].
  exact (fuzzy_title_match_ignores_case Latin1.isalnum Latin1.isspace
           Latin1.lower (literal "AMÉLIE") (literal "Amélie")
           latin1_agrees latin1_lower_agrees H1 H2 eq_refl).
Defined.

(** X9.  On titles of characters in U+0000 .. U+00FF the comparison form
    is idempotent: it is its own comparison form. *)
Theorem comparison_idempotent_on_latin1
  (isalnum isspace : codepoint -> bool) (lower : str -> str) (t : str) :
  agrees_on_latin1 isalnum isspace ->
  lower_agrees_on_latin1 lower ->
  Forall (fun c => c < 256) t ->
  exists s,
    normalize_title_for_comparison isalnum isspace lower (Some t) = Ok s
    /\ normalize_title_for_comparison isalnum isspace lower (Some s) = Ok s.
Proof.
  intros Hc Hl Ht.
  assert (Hsp : space_is_whitespace isspace).
  { unfold space_is_whitespace. now rewrite (proj2 (Hc SPACE eq_refl)). }
  destruct (matching_shape isalnum isspace (Some t)) as (ws & Ho & Hws).
  pose proof (matching_joined isalnum isspace Hsp ws Hws) as Hoo.
  set (o := join [SPACE] ws) in *.
  assert (Hr : Forall (fun c => c < 256) o).
  { apply (latin1_matching_in_range t); [exact Ht|].
    now rewrite <- (matching_on_latin1 isalnum isspace t Hc Ht). }
  exists (lower o). split; [now apply comparison_of_matching|].
  rewrite (comparison_lower_absorbed isalnum isspace lower Hc Hl o Hr).
  now apply comparison_of_matching.
Qed.

Lemma comparison_idempotent_on_latin1_witness :
  agrees_on_latin1 Latin1.isalnum Latin1.isspace
  /\ lower_agrees_on_latin1 Latin1.lower
  /\ Forall (fun c => c < 256) (literal "Spider-Man: Far From Home")
  /\ exists s,
      Latin1.comparison (Some (literal "Spider-Man: Far From Home")) = Ok s
      /\ Latin1.comparison (Some s) = Ok s.
Proof.
  assert (Ht : Forall (fun c => c < 256) (literal "Spider-Man: Far From Home"))
    by (apply below_256; reflexivity).
  split; [exact latin1_agrees|]. split; [exact latin1_lower_agrees|].
  split; [exact Ht|].
  exact (comparison_idempotent_on_latin1 Latin1.isalnum Latin1.isspace
           Latin1.lower (literal "Spider-Man: Far From Home")
           latin1_agrees latin1_lower_agrees Ht).
Defined.

(** *** Word boundaries *)

Lemma whitespace_not_alnum (isalnum isspace : codepoint -> bool)
  (s : codepoint) :
  alnum_not_whitespace isalnum isspace -> isspace s = true ->
  isalnum s = false.
Proof.
  intros Hdis Hs. destruct (isalnum s) eqn:Ha; [|reflexivity].
  apply Hdis in Ha. congruence.
Qed.

Lemma spaced_forms (isalnum isspace : codepoint -> bool)
  (w1 w2 : str) (s : codepoint) :
  alnum_not_whitespace isalnum isspace ->
  w1 <> [] -> w2 <> [] ->
  Forall (fun c => isalnum c = true) w1 ->
  Forall (fun c => isalnum c = true) w2 ->
  isspace s = true ->
  normalize_title_for_matching isalnum isspace (Some (w1 ++ s :: w2))
  = Ok (w1 ++ SPACE :: w2)
  /\ normalize_title_for_matching isalnum isspace (Some (w1 ++ w2))
     = Ok (w1 ++ w2).
Proof.
  intros Hdis N1 N2 H1 H2 Hs. split.
  - apply (matching_separated_by_space isalnum isspace Hdis w1 [s] w2);
      try assumption.
    + constructor; [|constructor].
      now apply (whitespace_not_alnum isalnum isspace).
    + now apply Exists_cons_hd.
  - apply (matching_joined_by_punctuation isalnum isspace Hdis w1 [] w2);
      [assumption | assumption | constructor].
Qed.

(** X10.  Whitespace between two words is significant where punctuation
    is not: the matching forms of two alphanumeric fragments written with
    a whitespace character between them and written together differ. *)
Theorem matching_keeps_word_boundary
  (isalnum isspace : codepoint -> bool) (w1 w2 : str) (s : codepoint) :
  alnum_not_whitespace isalnum isspace ->
  w1 <> [] -> w2 <> [] ->
  Forall (fun c => isalnum c = true) w1 ->
  Forall (fun c => isalnum c = true) w2 ->
  isspace s = true ->
  normalize_title_for_matching isalnum isspace (Some (w1 ++ s :: w2))
  <> normalize_title_for_matching isalnum isspace (Some (w1 ++ w2)).
Proof.
  intros Hdis N1 N2 H1 H2 Hs.
  destruct (spaced_forms isalnum isspace w1 w2 s Hdis N1 N2 H1 H2 Hs)
    as [-> ->].
  intros [= E]. apply (f_equal (@length codepoint)) in E.
  rewrite !length_app in E. cbn [length] in E. lia.
Qed.

Lemma matching_keeps_word_boundary_witness :
  alnum_not_whitespace Latin1.isalnum Latin1.isspace
  /\ literal "Iron" <> [] /\ literal "Man" <> []
  /\ Forall (fun c => Latin1.isalnum c = true) (literal "Iron")
  /\ Forall (fun c => Latin1.isalnum c = true) (literal "Man")
  /\ Latin1.isspace 32 = true
  /\ Latin1.matching (Some (literal "Iron" ++ 32 :: literal "Man"))
     <> Latin1.matching (Some (literal "Iron" ++ literal "Man")).
Proof.
  assert (H1 : Forall (fun c => Latin1.isalnum c = true) (literal "Iron"))
    by (repeat constructor).
  assert (H2 : Forall (fun c => Latin1.isalnum c = true) (literal "Man"))
    by (repeat constructor).
  assert (N1 : literal "Iron" <> []) by discriminate.
  assert (N2 : literal "Man" <> []) by discriminate.
  split; [exact latin1_alnum_not_whitespace|].
  split; [exact N1|]. split; [exact N2|]. split; [exact H1|].
  split; [exact H2|]. split; [reflexivity|].
  exact (matching_keeps_word_boundary Latin1.isalnum Latin1.isspace
           (literal "Iron") (literal "Man") 32
           latin1_alnum_not_whitespace N1 N2 H1 H2 eq_refl).
Defined.

Lemma forall_in_range_app (w1 w2 : str) (s : codepoint) :
  Forall (fun c => c < 256) w1 -> Forall (fun c => c < 256) w2 -> s < 256 ->
  Forall (fun c => c < 256) (w1 ++ s :: w2)
  /\ Forall (fun c => c < 256) (w1 ++ w2).
Proof.
  intros H1 H2 Hs. split; apply Forall_app; split; try assumption.
  now constructor.
Qed.

Lemma latin1_alnum_transfer (isalnum isspace : codepoint -> bool) (w : str) :
  agrees_on_latin1 isalnum isspace ->
  Forall (fun c => c < 256) w ->
  Forall (fun c => isalnum c = true) w ->
  Forall (fun c => Latin1.isalnum c = true) w.
Proof.
  intros Hag Hr Hw. apply Forall_forall. intros c Hc.
  rewrite Forall_forall in Hr, Hw.
  rewrite <- (proj1 (Hag c (Hr c Hc))). now apply Hw.
Qed.

(** X11.  Two titles of characters in U+0000 .. U+00FF that differ by a
    whitespace character between two alphanumeric fragments do not
    match. *)
Theorem fuzzy_title_match_keeps_word_boundary
  (isalnum isspace : codepoint -> bool) (lower : str -> str)
  (w1 w2 : str) (s : codepoint) :
  agrees_on_latin1 isalnum isspace ->
  lower_agrees_on_latin1 lower ->
  Forall (fun c => c < 256) w1 -> Forall (fun c => c < 256) w2 ->
  s < 256 ->
  w1 <> [] -> w2 <> [] ->
  Forall (fun c => isalnum c = true) w1 ->
  Forall (fun c => isalnum c = true) w2 ->
  isspace s = true ->
  fuzzy_title_match isalnum isspace lower
    (Some (w1 ++ s :: w2)) (Some (w1 ++ w2)) = Ok false.
Proof.
  intros Hag Hl R1 R2 Rs N1 N2 H1 H2 Hs.
  destruct (forall_in_range_app w1 w2 s R1 R2 Rs) as [Ra Rb].
  assert (Hs' : Latin1.isspace s = true)
    by (now rewrite <- (proj2 (Hag s Rs))).
  destruct (spaced_forms Latin1.isalnum Latin1.isspace w1 w2 s
              latin1_alnum_not_whitespace N1 N2
              (latin1_alnum_transfer isalnum isspace w1 Hag R1 H1)
              (latin1_alnum_transfer isalnum isspace w2 Hag R2 H2) Hs')
    as [Fa Fb].
  pose proof (latin1_matching_in_range _ _ Ra Fa) as Oa.
  pose proof (latin1_matching_in_range _ _ Rb Fb) as Ob.
  pose proof (eq_trans (matching_on_latin1 isalnum isspace _ Hag Ra) Fa)
    as Ga.
  pose proof (eq_trans (matching_on_latin1 isalnum isspace _ Hag Rb) Fb)
    as Gb.
  etransitivity;
    [exact (fuzzy_of_comparison isalnum isspace lower _ _ _ _
              (comparison_of_matching isalnum isspace lower _ _ Ga)
              (comparison_of_matching isalnum isspace lower _ _ Gb))|].
  f_equal. apply str_eqb_neq. rewrite (Hl _ Oa), (Hl _ Ob).
  intros E. apply (f_equal (@length codepoint)) in E.
  unfold Latin1.lower in E. rewrite !length_map, !length_app in E.
  cbn [length] in E. lia.
Qed.

Lemma fuzzy_title_match_keeps_word_boundary_witness :
  agrees_on_latin1 Latin1.isalnum Latin1.isspace
  /\ lower_agrees_on_latin1 Latin1.lower
  /\ Latin1.fuzzy (Some (literal "Iron" ++ 32 :: literal "Man"))
       (Some (literal "Iron" ++ literal "Man")) = Ok false.
Proof.
  split; [exact latin1_agrees|]. split; [exact latin1_lower_agrees|].
  refine (fuzzy_title_match_keeps_word_boundary
            Latin1.isalnum Latin1.isspace Latin1.lower
            (literal "Iron") (literal "Man") 32
            latin1_agrees latin1_lower_agrees _ _ eq_refl _ _ _ _ eq_refl).
  - apply below_256; reflexivity.
  - apply below_256; reflexivity.
  - discriminate.
  - discriminate.
  - repeat constructor.
  - repeat constructor.
Defined.

(** *** Separators anywhere in a title *)

(** Joining two lists of words is joining each and putting the results
    one after the other. *)
Lemma join_app_spaced (A B : list str) :
  Forall (fun w : str => w <> []) A -> Forall (fun w : str => w <> []) B ->
  join [SPACE] (A ++ B) = spaced (join [SPACE] A) (join [SPACE] B).
Proof.
  intros HA HB. induction HA as [|w A Hw HA IH]; [reflexivity|].
  destruct w as [|c w]; [congruence|].
  destruct A as [|w' A].
  - cbn [app]. destruct B as [|b B]; [reflexivity|].
    rewrite (join_cons [SPACE] (c :: w) (b :: B)) by discriminate.
    apply Forall_cons_iff in HB as [Hb _].
    destruct b as [|b0 b]; [congruence|].
    destruct (join_head [SPACE] b0 b B) as [rest Hr].
    cbn [join] in Hr |- *. rewrite Hr. reflexivity.
  - transitivity ((c :: w) ++ SPACE :: join [SPACE] ((w' :: A) ++ B));
      [reflexivity|].
    transitivity (spaced ((c :: w) ++ SPACE :: join [SPACE] (w' :: A))
                    (join [SPACE] B)); [|reflexivity].
    rewrite IH. clear IH.
    apply Forall_cons_iff in HA as [Hw' _].
    assert (Hx : exists d rest, join [SPACE] (w' :: A) = d :: rest).
    { destruct w' as [|d w']; [congruence|].
      destruct (join_head [SPACE] d w' A) as [rest Hr].
      exists d, rest. exact Hr. }
    destruct Hx as (d & rest & Hx). rewrite Hx.
    cbn [app spaced]. destruct (join [SPACE] B) as [|y ys]; [reflexivity|].
    f_equal. now rewrite <- app_assoc.
Qed.

Section SeparatorFacts.

Variable isalnum : codepoint -> bool.
Variable isspace : codepoint -> bool.

Lemma words_nonempty_each (t : str) :
  Forall (fun w : str => w <> []) (words isalnum isspace t).
Proof.
  eapply Forall_impl; [|apply (words_are_words isalnum isspace t)].
  now intros w [H _].
Qed.

Lemma words_app_punctuation (u sep v : str) :
  Forall (punctuation isalnum isspace) sep ->
  words isalnum isspace (u ++ sep ++ v) = words isalnum isspace (u ++ v).
Proof.
  intros H. unfold words. rewrite !filter_app.
  rewrite (filter_none (kept isalnum isspace) sep); [reflexivity|].
  eapply Forall_impl; [|exact H].
  intros c [Ha Hs]. unfold kept. now rewrite Ha, Hs.
Qed.

Lemma words_app_separator (u sep v : str) :
  Forall (fun c => isalnum c = false) sep ->
  Exists (fun c => isspace c = true) sep ->
  words isalnum isspace (u ++ sep ++ v)
  = words isalnum isspace u ++ words isalnum isspace v.
Proof.
  intros Hsep Hex. unfold words. rewrite !filter_app.
  rewrite (keep_no_alnum isalnum isspace sep Hsep).
  pose proof (filter_whitespace isspace sep) as Hall.
  pose proof (filter_some isspace sep Hex) as Hne.
  destruct (filter isspace sep) as [|s sp]; [congruence|].
  apply Forall_cons_iff in Hall as [Hs Hall].
  change ((s :: sp) ++ filter (kept isalnum isspace) v)
    with (s :: (sp ++ filter (kept isalnum isspace) v)).
  rewrite (split_app_space isspace _ _ s Hs).
  now rewrite (split_spaces_app isspace sp _ Hall).
Qed.

(** A separator that has whitespace and no alphanumeric character, at any
    place of a title: the result is the results of the two sides, one
    ASCII space between them. *)
Lemma matching_app_separator (u sep v : str) :
  Forall (fun c => isalnum c = false) sep ->
  Exists (fun c => isspace c = true) sep ->
  normalize_title_for_matching isalnum isspace (Some (u ++ sep ++ v))
  = Ok (spaced (join [SPACE] (words isalnum isspace u))
          (join [SPACE] (words isalnum isspace v))).
Proof.
  intros Hsep Hex.
  rewrite matching_some, (words_app_separator u sep v Hsep Hex).
  f_equal. apply join_app_spaced; apply words_nonempty_each.
Qed.

End SeparatorFacts.

(** C6.  For a present title: the alphanumeric characters of the result
    are exactly those of the title, in order and unchanged.  A character
    that is neither alphanumeric nor whitespace is deleted without a
    trace, alone or in a run, at any place of the title: the result is the
    one of the title without it, so that the fragments on its two sides
    are concatenated.  A separator that has whitespace and no
    alphanumeric character, at any place of the title, leaves the results
    of its two sides separated by exactly one ASCII space (and nothing
    where a side has no word).  In particular two alphanumeric fragments
    are concatenated across punctuation and separated by one space
    across a separator with whitespace. *)
Theorem matching_deletes_outright
  (isalnum isspace : codepoint -> bool) (t : str) :
  space_is_whitespace isspace ->
  alnum_not_whitespace isalnum isspace ->
  (exists o,
      normalize_title_for_matching isalnum isspace (Some t) = Ok o
      /\ filter isalnum o = filter isalnum t)
  /\ (forall u p v,
         t = u ++ p :: v -> punctuation isalnum isspace p ->
         normalize_title_for_matching isalnum isspace (Some t)
         = normalize_title_for_matching isalnum isspace (Some (u ++ v)))
  /\ (forall w1 sep w2,
         t = w1 ++ sep ++ w2 ->
         Forall (fun c => isalnum c = true) w1 ->
         Forall (fun c => isalnum c = true) w2 ->
         Forall (punctuation isalnum isspace) sep ->
         normalize_title_for_matching isalnum isspace (Some t)
         = Ok (w1 ++ w2))
  /\ (forall w1 sep w2,
         t = w1 ++ sep ++ w2 ->
         w1 <> [] -> w2 <> [] ->
         Forall (fun c => isalnum c = true) w1 ->
         Forall (fun c => isalnum c = true) w2 ->
         Forall (fun c => isalnum c = false) sep ->
         Exists (fun c => isspace c = true) sep ->
         normalize_title_for_matching isalnum isspace (Some t)
         = Ok (w1 ++ [SPACE] ++ w2))
  /\ (forall u sep v,
         t = u ++ sep ++ v ->
         Forall (punctuation isalnum isspace) sep ->
         normalize_title_for_matching isalnum isspace (Some t)
         = normalize_title_for_matching isalnum isspace (Some (u ++ v)))
  /\ (forall u sep v,
         t = u ++ sep ++ v ->
         Forall (fun c => isalnum c = false) sep ->
         Exists (fun c => isspace c = true) sep ->
         exists a b,
           normalize_title_for_matching isalnum isspace (Some u) = Ok a
           /\ normalize_title_for_matching isalnum isspace (Some v) = Ok b
           /\ normalize_title_for_matching isalnum isspace (Some t)
              = Ok (spaced a b)).
Proof.
  intros Hsp Hdis. repeat split.
  - eexists. split; [apply matching_some|].
    now apply matching_alnum_subsequence.
  - intros u p v -> Hp. now apply matching_drops.
  - intros w1 sep w2 -> H1 H2 Hsep.
    now apply matching_joined_by_punctuation.
  - intros w1 sep w2 -> N1 N2 H1 H2 Hsep Hex.
    now apply matching_separated_by_space.
  - intros u sep v -> Hsep. apply matching_words_eq.
    now apply words_app_punctuation.
  - intros u sep v -> Hsep Hex.
    exists (join [SPACE] (words isalnum isspace u)),
           (join [SPACE] (words isalnum isspace v)).
    split; [apply matching_some|]. split; [apply matching_some|].
    now apply matching_app_separator.
Qed.

Lemma matching_deletes_outright_witness :
  space_is_whitespace Latin1.isspace
  /\ alnum_not_whitespace Latin1.isalnum Latin1.isspace
  /\ (exists o,
         Latin1.matching (Some (literal "Star Wars: Episode IV")) = Ok o
         /\ filter Latin1.isalnum o
            = filter Latin1.isalnum (literal "Star Wars: Episode IV"))
  /\ (exists a b,
         Latin1.matching (Some (literal "Star Wars")) = Ok a
         /\ Latin1.matching (Some (literal "Episode IV")) = Ok b
         /\ Latin1.matching (Some (literal "Star Wars: Episode IV"))
            = Ok (spaced a b)).
Proof.
  split; [exact latin1_space_is_whitespace|].
  split; [exact latin1_alnum_not_whitespace|].
  pose proof (matching_deletes_outright Latin1.isalnum Latin1.isspace
                (literal "Star Wars: Episode IV")
                latin1_space_is_whitespace latin1_alnum_not_whitespace)
    as (H1 & _ & _ & _ & _ & H6).
  split; [exact H1|].
  apply (H6 (literal "Star Wars") (literal ": ") (literal "Episode IV")).
  - reflexivity.
  - repeat constructor.
  - apply Exists_cons_tl, Exists_cons_hd. reflexivity.
Defined.
